(** * resolute-pagerduty: the PagerDuty connector, embedded and verified

    A shallow embedding of [incidents.go] and [client.go]:
    the REST client ([ListIncidents], [GetIncident]), the document mapper
    ([incidentToDocument]) and the three activities
    ([FetchIncidentsActivity], [FetchIncidentActivity],
    [FetchPostmortemsActivity]).

    Conventions.
    - Go [string] is [string] (a sequence of bytes); Go [int] is [Z]
      (the code only compares and prints integers, it never does
      arithmetic on them, so no wrap-around is involved).
    - [map[string]string] is [gmap string string]; [map[string][]string]
      ([url.Values], [http.Header]) is [gmap string (list string)].
    - A Go pointer that may be nil (to a [time.Time], to a [Priority])
      is an [option].
    - A client result, a pointer to [T] paired with an [error], is
      [error + T]; the activities return the pair [(output, error)] as Go
      does, with the zero output next to a non-nil error.
    - Calls to the outside (HTTP transport, JSON decoder, document store)
      are fields of a [World]; every call of interest is recorded, in
      order, in the trace of a small writer monad. *)

From Stdlib Require Import ZArith String Ascii DecimalString.
From stdpp Require Import gmap strings list fin_maps.

Open Scope string_scope.
Open Scope list_scope.
Open Scope Z_scope.

(** ** Strings and formatting (Go's [strings] and [fmt]) *)

(** [strings.Join(elems, sep)]. *)
Fixpoint strings_Join (elems : list string) (sep : string) : string :=
  match elems with
  | [] => ""
  | [e] => e
  | e :: rest => e +:+ sep +:+ strings_Join rest sep
  end.

(** [strings.Contains(s, substr)], as a proposition. *)
Definition Contains (s substr : string) : Prop :=
  ∃ pre post : string, s = pre +:+ substr +:+ post.

(** The verb [%d] of [fmt]: decimal digits, with a leading minus sign. *)
Definition fmt_d (n : Z) : string := NilZero.string_of_int (Z.to_int n).

(** ** Errors (Go's [error] interface, [errors.New] and [fmt.Errorf]) *)

Inductive error : Type :=
| errorString (msg : string)
| wrapError (msg : string) (err : error).

(** The [Error()] method. *)
Definition Error (e : error) : string :=
  match e with
  | errorString msg => msg
  | wrapError msg _ => msg
  end.

(** [errors.Unwrap]. *)
Definition Unwrap (e : error) : option error :=
  match e with
  | errorString _ => None
  | wrapError _ err => Some err
  end.

(** [fmt.Errorf(label + ": %w", err)]: the message is the label, a colon
    and a space, then the message of [err]; the result wraps [err]. *)
Definition Errorf_w (label : string) (err : error) : error :=
  wrapError (label +:+ ": " +:+ Error err) err.

(** [fmt.Errorf("pagerduty API error: status=%d body=%s", code, body)]. *)
Definition apiError (code : Z) (body : string) : error :=
  errorString ("pagerduty API error: status=" +:+ fmt_d code +:+ " body=" +:+ body).

(** ** Types declared outside the repository

    [time.Time], [context.Context] and [core.DataRef] are opaque to the
    connector: it stores, copies and passes them on. They are parameters,
    together with their Go zero values and [Time.Format(time.RFC3339)]. *)

Class Platform : Type := {
  Time : Type;
  context_Context : Type;
  DataRef : Type;
  Time_zero : Time;
  DataRef_zero : DataRef;
  Time_Format_RFC3339 : Time → string
}.

(** ** Data model *)

Record Priority : Type := {
  Priority_ID : string;
  Priority_Name : string;
  Priority_Summary : string
}.

Record Service : Type := {
  Service_ID : string;
  Service_Name : string;
  Service_Summary : string
}.

Record Assignee : Type := {
  Assignee_ID : string;
  Assignee_Name : string;
  Assignee_Summary : string
}.

Record EscalationPolicy : Type := {
  EscalationPolicy_ID : string;
  EscalationPolicy_Name : string;
  EscalationPolicy_Summary : string
}.

Section DataModel.
Context {P : Platform}.

Record Assignment : Type := {
  Assignment_At : Time;
  Assignment_Assignee : Assignee
}.

Record Incident : Type := {
  Incident_ID : string;
  Incident_Type : string;
  Incident_Summary : string;
  Incident_Description : string;
  Incident_Status : string;
  Incident_Urgency : string;
  Incident_Priority : option Priority;
  Incident_CreatedAt : Time;
  Incident_UpdatedAt : Time;
  Incident_ResolvedAt : option Time;
  Incident_Service : Service;
  Incident_Assignments : list Assignment;
  Incident_EscalationPolicy : EscalationPolicy;
  Incident_HTMLURL : string
}.

Record IncidentListResponse : Type := {
  IncidentListResponse_Incidents : list Incident;
  IncidentListResponse_Limit : Z;
  IncidentListResponse_Offset : Z;
  IncidentListResponse_Total : Z;
  IncidentListResponse_More : bool
}.

(** [transform.Document], with the fields the connector sets. *)
Record Document : Type := {
  Document_ID : string;
  Document_Content : string;
  Document_Title : string;
  Document_Source : string;
  Document_URL : string;
  Document_Metadata : gmap string string;
  Document_UpdatedAt : Time
}.

(** The zero value [transform.Document{}]. *)
Definition Document_zero : Document :=
  {| Document_ID := ""; Document_Content := ""; Document_Title := "";
     Document_Source := ""; Document_URL := ""; Document_Metadata := ∅;
     Document_UpdatedAt := Time_zero |}.

(** ** The document mapper *)

Definition incidentToDocument (incident : Incident) : Document :=
  let contentParts : list string := [] in
  let contentParts := contentParts ++ [Incident_Summary incident] in
  let contentParts :=
    if decide (Incident_Description incident ≠ "")
    then contentParts ++ [Incident_Description incident]
    else contentParts in
  let content := strings_Join contentParts (String "010"%char (String "010"%char "")) in
  let metadata : gmap string string :=
    <["service" := Service_Name (Incident_Service incident)]>
      (<["urgency" := Incident_Urgency incident]>
         (<["status" := Incident_Status incident]>
            (<["incident_id" := Incident_ID incident]> ∅))) in
  let metadata :=
    match Incident_Priority incident with
    | Some priority => <["priority" := Priority_Name priority]> metadata
    | None => metadata
    end in
  let metadata :=
    match Incident_Assignments incident with
    | first :: _ =>
        <["assignee" := Assignee_Name (Assignment_Assignee first)]> metadata
    | [] => metadata
    end in
  {| Document_ID := Incident_ID incident;
     Document_Content := content;
     Document_Title := Incident_Summary incident;
     Document_Source := "pagerduty";
     Document_URL := Incident_HTMLURL incident;
     Document_Metadata := metadata;
     Document_UpdatedAt := Incident_UpdatedAt incident |}.

End DataModel.

(** ** Query strings (Go's [net/url]) *)

(** [shouldEscape(c, encodeQueryComponent)]: letters, digits and
    [- _ . ~] are kept, every other byte is escaped. *)
Definition shouldEscape (c : ascii) : bool :=
  let n := N_of_ascii c in
  negb (((48 <=? n) && (n <=? 57)) || ((65 <=? n) && (n <=? 90))
        || ((97 <=? n) && (n <=? 122))
        || (n =? 45) || (n =? 95) || (n =? 46) || (n =? 126))%N.

(** One digit of ["0123456789ABCDEF"]. *)
Definition upperhex (n : N) : ascii :=
  ascii_of_N (if (n <? 10)%N then 48 + n else 55 + n)%N.

(** [url.QueryEscape]: a space becomes [+], an escaped byte becomes
    [%XX]. *)
Fixpoint QueryEscape (s : string) : string :=
  match s with
  | EmptyString => ""
  | String c rest =>
      if shouldEscape c then
        if Ascii.eqb c " "%char then String "+"%char (QueryEscape rest)
        else
          let n := N_of_ascii c in
          String "%"%char
            (String (upperhex (n / 16)%N)
               (String (upperhex (n mod 16)%N) (QueryEscape rest)))
      else String c (QueryEscape rest)
  end.

(** [url.Values] is [map[string][]string]; [Values.Set] replaces the
    values of a key by one value. *)
Definition Values_Set (key value : string) (v : gmap string (list string))
  : gmap string (list string) :=
  <[key := [value]]> v.

(** [slices.Sort] on the keys: insertion into a list sorted by the
    byte-wise order of strings. *)
Fixpoint insert_sorted (kv : string * list string)
    (l : list (string * list string)) : list (string * list string) :=
  match l with
  | [] => [kv]
  | kv' :: rest =>
      if String.leb (fst kv) (fst kv') then kv :: l
      else kv' :: insert_sorted kv rest
  end.

Definition sorted_entries (v : gmap string (list string))
  : list (string * list string) :=
  foldr insert_sorted [] (map_to_list v).

(** [Values.Encode]: ["k=v"] for every value of every key, keys in sorted
    order, joined by [&]. *)
Definition Values_Encode (v : gmap string (list string)) : string :=
  strings_Join
    (flat_map
       (λ kv, map (λ value, QueryEscape (fst kv) +:+ "=" +:+ QueryEscape value)
                  (snd kv))
       (sorted_entries v))
    "&".

(** ** HTTP (Go's [net/http] and [io]) *)

Section Http.
Context {P : Platform}.

(** [http.Request], as far as the client fills it. *)
Record Request : Type := {
  Request_ctx : context_Context;
  Request_Method : string;
  Request_URL : string;
  Request_Header : gmap string (list string)
}.

(** [req.Header.Set(key, value)]; the three keys the client sets are in
    canonical form already. *)
Definition Header_Set (key value : string) (req : Request) : Request :=
  {| Request_ctx := Request_ctx req;
     Request_Method := Request_Method req;
     Request_URL := Request_URL req;
     Request_Header := <[key := [value]]> (Request_Header req) |}.

(** A response body is a reader: the bytes it yields, and the error it
    ends with, if any (nil at a clean end of stream). *)
Record Body : Type := {
  Body_data : string;
  Body_err : option error
}.

Record Response : Type := {
  Response_StatusCode : Z;
  Response_Body : Body
}.

(** [http.Client], with the one field the connector sets
    (a [time.Duration], in nanoseconds). *)
Record http_Client : Type := {
  http_Client_Timeout : Z
}.

(** The outside world of one activity run. [http_NewRequest_check] is the
    validation done by [http.NewRequestWithContext] (context, method,
    URL): [None] when the request can be built. [json_Decode_Incident]
    decodes the wrapper object of the single-incident endpoint and gives
    its [incident] member. *)
Class World : Type := {
  http_NewRequest_check : context_Context → string → string → option error;
  http_Client_Do : http_Client → Request → error + Response;
  json_Decode_IncidentListResponse : Body → error + IncidentListResponse;
  json_Decode_Incident : Body → error + Incident;
  transform_StoreDocuments : context_Context → list Document → error + DataRef
}.

(** [http.NewRequestWithContext(ctx, method, url, nil)]. *)
Definition http_NewRequestWithContext {W : World}
    (ctx : context_Context) (method url : string) : error + Request :=
  match http_NewRequest_check ctx method url with
  | Some err => inl err
  | None =>
      inr {| Request_ctx := ctx; Request_Method := method;
             Request_URL := url; Request_Header := ∅ |}
  end.

(** ** Calls and traces *)

Inductive Event : Type :=
| CallListIncidents (since until : option Time) (limit : Z)
| CallGetIncident (incidentID : string)
| CallDo (req : Request)
| CallReadAll (body : Body)
| CallDecode (body : Body)
| CallIncidentToDocument (incident : Incident)
| CallStoreDocuments (docs : list Document).

(** A computation gives its result and the calls it made, in order. *)
Definition M (A : Type) : Type := A * list Event.

Definition ret {A : Type} (a : A) : M A := (a, []).

Definition bind {A B : Type} (m : M A) (f : A → M B) : M B :=
  let (a, tr) := m in
  let (b, tr') := f a in
  (b, tr ++ tr').

Definition call (e : Event) : M unit := (tt, [e]).

End Http.

Notation "'do' x <- m ; f" := (bind m (λ x, f))
  (at level 10, x name, m at level 100, f at level 200,
   format "'[v' 'do'  x  <-  m ; '/' f ']'").
Notation "'run' m ; f" := (bind m (λ _, f))
  (at level 10, m at level 100, f at level 200,
   format "'[v' 'run'  m ; '/' f ']'").

(** ** The REST client ([client.go]) *)

Definition baseURL : string := "https://api.pagerduty.com".

Section Client.
Context {P : Platform} {W : World}.

Record Client : Type := {
  Client_apiKey : string;
  Client_httpClient : http_Client
}.

Record ClientConfig : Type := {
  ClientConfig_APIKey : string;
  ClientConfig_Timeout : Z
}.

(** [30 * time.Second], in nanoseconds. *)
Definition defaultTimeout : Z := 30 * 1000000000.

Definition NewClient (cfg : ClientConfig) : Client :=
  let timeout := ClientConfig_Timeout cfg in
  let timeout := if decide (timeout = 0) then defaultTimeout else timeout in
  {| Client_apiKey := ClientConfig_APIKey cfg;
     Client_httpClient := {| http_Client_Timeout := timeout |} |}.

Definition setAuth (c : Client) (req : Request) : Request :=
  let req := Header_Set "Authorization" ("Token token=" +:+ Client_apiKey c) req in
  let req := Header_Set "Accept" "application/json" req in
  let req := Header_Set "Content-Type" "application/json" req in
  req.

(** The traced calls to the outside. *)
Definition Do (hc : http_Client) (req : Request) : M (error + Response) :=
  run call (CallDo req);
  ret (http_Client_Do hc req).

(** [io.ReadAll]: the bytes read, and the error that ended the read. *)
Definition io_ReadAll (body : Body) : M (string * option error) :=
  run call (CallReadAll body);
  ret (Body_data body, Body_err body).

Definition Decode_IncidentListResponse (body : Body)
  : M (error + IncidentListResponse) :=
  run call (CallDecode body);
  ret (json_Decode_IncidentListResponse body).

Definition Decode_Incident (body : Body) : M (error + Incident) :=
  run call (CallDecode body);
  ret (json_Decode_Incident body).

(** The query parameters built by [ListIncidents]. *)
Definition ListIncidents_params (since until : option Time) (limit : Z)
  : gmap string (list string) :=
  let limit := if decide (limit ≤ 0) then 25 else limit in
  let params : gmap string (list string) := ∅ in
  let params := Values_Set "limit" (fmt_d limit) params in
  let params :=
    match since with
    | Some t => Values_Set "since" (Time_Format_RFC3339 t) params
    | None => params
    end in
  let params :=
    match until with
    | Some t => Values_Set "until" (Time_Format_RFC3339 t) params
    | None => params
    end in
  params.

(** The URL requested by [ListIncidents]. *)
Definition ListIncidents_endpoint (since until : option Time) (limit : Z)
  : string :=
  baseURL +:+ "/incidents?" +:+ Values_Encode (ListIncidents_params since until limit).

(** [ListIncidents] and [GetIncident]. The deferred [resp.Body.Close()]
    has no effect the connector observes and is left out. *)
Definition ListIncidents (c : Client) (ctx : context_Context)
    (since until : option Time) (limit : Z)
  : M (error + IncidentListResponse) :=
  run call (CallListIncidents since until limit);
  let endpoint := ListIncidents_endpoint since until limit in
  match http_NewRequestWithContext ctx "GET" endpoint with
  | inl err => ret (inl (Errorf_w "create request" err))
  | inr req =>
      let req := setAuth c req in
      do r <- Do (Client_httpClient c) req;
      match r with
      | inl err => ret (inl (Errorf_w "execute request" err))
      | inr resp =>
          if decide (Response_StatusCode resp ≠ 200) then
            do b <- io_ReadAll (Response_Body resp);
            ret (inl (apiError (Response_StatusCode resp) (fst b)))
          else
            do d <- Decode_IncidentListResponse (Response_Body resp);
            match d with
            | inl err => ret (inl (Errorf_w "decode response" err))
            | inr result => ret (inr result)
            end
      end
  end.

(** The URL requested by [GetIncident]. *)
Definition GetIncident_endpoint (incidentID : string) : string :=
  baseURL +:+ "/incidents/" +:+ incidentID.

Definition GetIncident (c : Client) (ctx : context_Context) (incidentID : string)
  : M (error + Incident) :=
  run call (CallGetIncident incidentID);
  let endpoint := GetIncident_endpoint incidentID in
  match http_NewRequestWithContext ctx "GET" endpoint with
  | inl err => ret (inl (Errorf_w "create request" err))
  | inr req =>
      let req := setAuth c req in
      do r <- Do (Client_httpClient c) req;
      match r with
      | inl err => ret (inl (Errorf_w "execute request" err))
      | inr resp =>
          if decide (Response_StatusCode resp ≠ 200) then
            do b <- io_ReadAll (Response_Body resp);
            ret (inl (apiError (Response_StatusCode resp) (fst b)))
          else
            do d <- Decode_Incident (Response_Body resp);
            match d with
            | inl err => ret (inl (Errorf_w "decode response" err))
            | inr incident => ret (inr incident)
            end
      end
  end.

End Client.

(** ** The activities ([incidents.go]) *)

Section Activities.
Context {P : Platform} {W : World}.

Record FetchIncidentsInput : Type := {
  FetchIncidentsInput_APIKey : string;
  FetchIncidentsInput_Since : option Time;
  FetchIncidentsInput_Until : option Time;
  FetchIncidentsInput_Limit : Z
}.

Record FetchIncidentsOutput : Type := {
  FetchIncidentsOutput_Ref : DataRef;
  FetchIncidentsOutput_Count : Z;
  FetchIncidentsOutput_Total : Z
}.

Definition FetchIncidentsOutput_zero : FetchIncidentsOutput :=
  {| FetchIncidentsOutput_Ref := DataRef_zero;
     FetchIncidentsOutput_Count := 0;
     FetchIncidentsOutput_Total := 0 |}.

Record FetchIncidentInput : Type := {
  FetchIncidentInput_APIKey : string;
  FetchIncidentInput_IncidentID : string
}.

Record FetchIncidentOutput : Type := {
  FetchIncidentOutput_Document : Document;
  FetchIncidentOutput_Found : bool
}.

Definition FetchIncidentOutput_zero : FetchIncidentOutput :=
  {| FetchIncidentOutput_Document := Document_zero;
     FetchIncidentOutput_Found := false |}.

Record FetchPostmortemsInput : Type := {
  FetchPostmortemsInput_APIKey : string;
  FetchPostmortemsInput_Since : option Time;
  FetchPostmortemsInput_Limit : Z
}.

Record FetchPostmortemsOutput : Type := {
  FetchPostmortemsOutput_Ref : DataRef;
  FetchPostmortemsOutput_Count : Z
}.

Definition FetchPostmortemsOutput_zero : FetchPostmortemsOutput :=
  {| FetchPostmortemsOutput_Ref := DataRef_zero;
     FetchPostmortemsOutput_Count := 0 |}.

(** A traced call of the mapper. *)
Definition call_incidentToDocument (incident : Incident) : M Document :=
  run call (CallIncidentToDocument incident);
  ret (incidentToDocument incident).

(** A traced call of [transform.StoreDocuments]. *)
Definition StoreDocuments (ctx : context_Context) (docs : list Document)
  : M (error + DataRef) :=
  run call (CallStoreDocuments docs);
  ret (transform_StoreDocuments ctx docs).

(** [for _, x := range xs { s = body(x, s) }]. *)
Fixpoint for_range {A S : Type} (xs : list A) (body : A → S → M S) (s : S)
  : M S :=
  match xs with
  | [] => ret s
  | x :: rest => do s' <- body x s; for_range rest body s'
  end.

(** [len(docs)]. *)
Definition len {A : Type} (l : list A) : Z := Z.of_nat (length l).

Definition FetchIncidentsActivity (ctx : context_Context) (input : FetchIncidentsInput)
  : M (FetchIncidentsOutput * option error) :=
  let client :=
    NewClient {| ClientConfig_APIKey := FetchIncidentsInput_APIKey input;
                 ClientConfig_Timeout := 0 |} in
  let limit := FetchIncidentsInput_Limit input in
  let limit := if decide (limit ≤ 0) then 100 else limit in
  do r <- ListIncidents client ctx (FetchIncidentsInput_Since input)
            (FetchIncidentsInput_Until input) limit;
  match r with
  | inl err => ret (FetchIncidentsOutput_zero, Some (Errorf_w "list incidents" err))
  | inr result =>
      do docs <- for_range (IncidentListResponse_Incidents result)
                   (λ incident docs,
                      do doc <- call_incidentToDocument incident;
                      ret (docs ++ [doc]))
                   [];
      do s <- StoreDocuments ctx docs;
      match s with
      | inl err =>
          ret (FetchIncidentsOutput_zero, Some (Errorf_w "store documents" err))
      | inr ref =>
          ret ({| FetchIncidentsOutput_Ref := ref;
                  FetchIncidentsOutput_Count := len docs;
                  FetchIncidentsOutput_Total := IncidentListResponse_Total result |},
               None)
      end
  end.

Definition FetchIncidentActivity (ctx : context_Context) (input : FetchIncidentInput)
  : M (FetchIncidentOutput * option error) :=
  let client :=
    NewClient {| ClientConfig_APIKey := FetchIncidentInput_APIKey input;
                 ClientConfig_Timeout := 0 |} in
  do r <- GetIncident client ctx (FetchIncidentInput_IncidentID input);
  match r with
  | inl err => ret (FetchIncidentOutput_zero, Some (Errorf_w "get incident" err))
  | inr incident =>
      do doc <- call_incidentToDocument incident;
      ret ({| FetchIncidentOutput_Document := doc;
              FetchIncidentOutput_Found := true |},
           None)
  end.

(** [doc.Metadata["document_type"] = "postmortem"]. *)
Definition tagPostmortem (doc : Document) : Document :=
  {| Document_ID := Document_ID doc;
     Document_Content := Document_Content doc;
     Document_Title := Document_Title doc;
     Document_Source := Document_Source doc;
     Document_URL := Document_URL doc;
     Document_Metadata := <["document_type" := "postmortem"]> (Document_Metadata doc);
     Document_UpdatedAt := Document_UpdatedAt doc |}.

Definition FetchPostmortemsActivity (ctx : context_Context) (input : FetchPostmortemsInput)
  : M (FetchPostmortemsOutput * option error) :=
  let client :=
    NewClient {| ClientConfig_APIKey := FetchPostmortemsInput_APIKey input;
                 ClientConfig_Timeout := 0 |} in
  let limit := FetchPostmortemsInput_Limit input in
  let limit := if decide (limit ≤ 0) then 100 else limit in
  do r <- ListIncidents client ctx (FetchPostmortemsInput_Since input) None limit;
  match r with
  | inl err => ret (FetchPostmortemsOutput_zero, Some (Errorf_w "list incidents" err))
  | inr result =>
      do docs <- for_range (IncidentListResponse_Incidents result)
                   (λ incident docs,
                      if decide (Incident_Status incident = "resolved") then
                        do doc <- call_incidentToDocument incident;
                        let doc := tagPostmortem doc in
                        ret (docs ++ [doc])
                      else ret docs)
                   [];
      do s <- StoreDocuments ctx docs;
      match s with
      | inl err =>
          ret (FetchPostmortemsOutput_zero, Some (Errorf_w "store documents" err))
      | inr ref =>
          ret ({| FetchPostmortemsOutput_Ref := ref;
                  FetchPostmortemsOutput_Count := len docs |},
               None)
      end
  end.

End Activities.

(** ** Vocabulary of the statements *)

Section Vocabulary.
Context {P : Platform} {W : World}.

(** The four entries set by the map literal of the mapper. *)
Definition baseKeys : gset string :=
  {["incident_id"; "status"; "urgency"; "service"]}.

(** The client every activity builds from the API key of its input. *)
Definition clientFor (apiKey : string) : Client :=
  NewClient {| ClientConfig_APIKey := apiKey; ClientConfig_Timeout := 0 |}.

(** The limit an activity passes on for the limit of its input. *)
Definition activityLimit (limit : Z) : Z :=
  if decide (limit ≤ 0) then 100 else limit.

(** The incidents the postmortem path keeps. *)
Definition resolved (incidents : list Incident) : list Incident :=
  filter (λ incident, Incident_Status incident = "resolved") incidents.

(** The postmortem documents as the specification words them: filter the
    incident list to the status [resolved], map each incident to its
    document, and overlay the entry [document_type = postmortem] on the
    metadata of each. *)
Definition postmortemDocuments_spec (incidents : list Incident) : list Document :=
  map (λ incident,
         let doc := incidentToDocument incident in
         {| Document_ID := Document_ID doc;
            Document_Content := Document_Content doc;
            Document_Title := Document_Title doc;
            Document_Source := Document_Source doc;
            Document_URL := Document_URL doc;
            Document_Metadata :=
              <["document_type" := "postmortem"]> (Document_Metadata doc);
            Document_UpdatedAt := Document_UpdatedAt doc |})
      (resolved incidents).

(** The request the client builds for a URL. *)
Definition requestFor (c : Client) (ctx : context_Context) (url : string) : Request :=
  setAuth c {| Request_ctx := ctx; Request_Method := "GET";
               Request_URL := url; Request_Header := ∅ |}.

(** The server answers the client's request for [url] with [resp]. *)
Definition answers (c : Client) (ctx : context_Context) (url : string) (resp : Response)
  : Prop :=
  http_NewRequest_check ctx "GET" url = None
  ∧ http_Client_Do (Client_httpClient c) (requestFor c ctx url) = inr resp.

(** The calls made below the client: transport, body read, decoder. *)
Definition transportCall (e : Event) : Prop :=
  match e with
  | CallDo _ | CallReadAll _ | CallDecode _ => True
  | _ => False
  end.

(** The arguments of a call of [ListIncidents]. *)
Definition listCall (e : Event) : option (option Time * option Time * Z) :=
  match e with
  | CallListIncidents since until limit => Some (since, until, limit)
  | _ => None
  end.

(** The calls of [ListIncidents] in a trace, in order. *)
Definition listCalls (tr : list Event) : list (option Time * option Time * Z) :=
  omap listCall tr.

(** A call of [ListIncidents] with a positive limit, which goes into the
    query as it is: the guard [limit <= 0] of [ListIncidents] is false. *)
Definition passesLimitThrough (call : option Time * option Time * Z) : Prop :=
  let '(since, until, limit) := call in
  0 < limit
  ∧ ListIncidents_params since until limit !! "limit" = Some [fmt_d limit].

End Vocabulary.

(** ** A sample platform and a sample server

    Times are kept as their RFC 3339 text, a context carries nothing, a
    reference handle is a string. The sample server answers every request
    with one status code and one body; a body decodes to a fixed list of
    four incidents, or to the third of them. *)

Module Sample.

Definition platform : Platform :=
  {| Time := string; context_Context := unit; DataRef := string;
     Time_zero := "0001-01-01T00:00:00Z"; DataRef_zero := "";
     Time_Format_RFC3339 := λ t, t |}.

Definition incident (id summary description status : string)
    (priority : option Priority) (assignees : list string)
  : @Incident platform :=
  {| Incident_ID := id; Incident_Type := "incident";
     Incident_Summary := summary; Incident_Description := description;
     Incident_Status := status; Incident_Urgency := "high";
     Incident_Priority := priority;
     Incident_CreatedAt := "2024-01-15T10:00:00Z" : @Time platform;
     Incident_UpdatedAt := "2024-01-15T11:00:00Z" : @Time platform;
     Incident_ResolvedAt := None;
     Incident_Service :=
       {| Service_ID := "S1"; Service_Name := "checkout"; Service_Summary := "" |};
     Incident_Assignments :=
       map (λ name,
              {| Assignment_At := "2024-01-15T10:05:00Z" : @Time platform;
                 Assignment_Assignee :=
                   {| Assignee_ID := "U1"; Assignee_Name := name;
                      Assignee_Summary := "" |} |})
           assignees;
     Incident_EscalationPolicy :=
       {| EscalationPolicy_ID := "E1"; EscalationPolicy_Name := "default";
          EscalationPolicy_Summary := "" |};
     Incident_HTMLURL := "https://example.pagerduty.com/incidents/" +:+ id |}.

Definition P1 : Priority :=
  {| Priority_ID := "PR1"; Priority_Name := "P1"; Priority_Summary := "" |}.

Definition inc1 := incident "I1" "disk full" "" "triggered" None [].
Definition inc2 := incident "I2" "latency" "p99 above 2s" "acknowledged" (Some P1) ["ana"].
Definition inc3 := incident "I3" "outage" "db failover" "resolved" (Some P1) ["bo"; "cy"].
Definition inc4 := incident "I4" "cert expired" "" "resolved" None [].

Definition listing : @IncidentListResponse platform :=
  {| IncidentListResponse_Incidents := [inc1; inc2; inc3; inc4];
     IncidentListResponse_Limit := 100;
     IncidentListResponse_Offset := 0;
     IncidentListResponse_Total := 7;
     IncidentListResponse_More := true |}.

(** The server answers [code] and [body]; the store answers [store]. *)
Definition world (code : Z) (body : string) (store : error + string)
  : @World platform :=
  {| http_NewRequest_check := λ _ _ _, None;
     http_Client_Do := λ _ _,
       inr {| Response_StatusCode := code;
              Response_Body := {| Body_data := body; Body_err := None |} |};
     json_Decode_IncidentListResponse := λ _, inr listing;
     json_Decode_Incident := λ _, inr inc3;
     transform_StoreDocuments := λ _ _, store |}.

Definition up : @World platform := world 200 "{}" (inr "ref-1").

(** The body [{"error":"not found"}]. *)
Definition notFoundBody : string :=
  let q := String "034"%char "" in
  "{" +:+ q +:+ "error" +:+ q +:+ ":" +:+ q +:+ "not found" +:+ q +:+ "}".

Definition notFound : @World platform := world 404 notFoundBody (inr "ref-1").

Definition storeDown : @World platform :=
  world 200 "{}" (inl (errorString "disk quota exceeded")).

Definition incidentsInput (limit : Z) : @FetchIncidentsInput platform :=
  {| FetchIncidentsInput_APIKey := "k"; FetchIncidentsInput_Since := None;
     FetchIncidentsInput_Until := Some ("2024-02-01T00:00:00Z" : @Time platform);
     FetchIncidentsInput_Limit := limit |}.

Definition incidentInput : FetchIncidentInput :=
  {| FetchIncidentInput_APIKey := "k"; FetchIncidentInput_IncidentID := "I3" |}.

Definition postmortemsInput (limit : Z) : @FetchPostmortemsInput platform :=
  {| FetchPostmortemsInput_APIKey := "k";
     FetchPostmortemsInput_Since := Some ("2024-01-01T00:00:00Z" : @Time platform);
     FetchPostmortemsInput_Limit := limit |}.

End Sample.

(** ** Registration ([provider.go]) and workflow nodes

    [core.NewProvider], [Provider.AddActivity] and [core.NewNode] belong to
    the workflow library. The connector is modelled by the calls it makes
    to them: the provider is the name and version it is created with and
    the activities added to it, in order; a node is the name, the activity
    and the input it is created with. *)

Inductive Activity : Type :=
| ActFetchIncidents
| ActFetchIncident
| ActFetchPostmortems.

Definition ProviderName : string := "resolute-pagerduty".
Definition ProviderVersion : string := "1.0.0".

Record core_Provider : Type := {
  core_Provider_Name : string;
  core_Provider_Version : string;
  core_Provider_Activities : list (string * Activity)
}.

Definition core_NewProvider (name version : string) : core_Provider :=
  {| core_Provider_Name := name; core_Provider_Version := version;
     core_Provider_Activities := [] |}.

Definition AddActivity (name : string) (activity : Activity) (p : core_Provider)
  : core_Provider :=
  {| core_Provider_Name := core_Provider_Name p;
     core_Provider_Version := core_Provider_Version p;
     core_Provider_Activities := core_Provider_Activities p ++ [(name, activity)] |}.

Definition Provider : core_Provider :=
  AddActivity "pagerduty.FetchPostmortems" ActFetchPostmortems
    (AddActivity "pagerduty.FetchIncident" ActFetchIncident
       (AddActivity "pagerduty.FetchIncidents" ActFetchIncidents
          (core_NewProvider ProviderName ProviderVersion))).

Record core_Node (I : Type) : Type := {
  core_Node_Name : string;
  core_Node_Activity : Activity;
  core_Node_Input : I
}.
Arguments core_Node_Name {I} _.
Arguments core_Node_Activity {I} _.
Arguments core_Node_Input {I} _.

Definition core_NewNode {I : Type} (name : string) (activity : Activity) (input : I)
  : core_Node I :=
  {| core_Node_Name := name; core_Node_Activity := activity;
     core_Node_Input := input |}.

Section Nodes.
Context {P : Platform}.

Definition FetchIncidents (input : FetchIncidentsInput) : core_Node FetchIncidentsInput :=
  core_NewNode "pagerduty.FetchIncidents" ActFetchIncidents input.

Definition FetchIncident (input : FetchIncidentInput) : core_Node FetchIncidentInput :=
  core_NewNode "pagerduty.FetchIncident" ActFetchIncident input.

Definition FetchPostmortems (input : FetchPostmortemsInput)
  : core_Node FetchPostmortemsInput :=
  core_NewNode "pagerduty.FetchPostmortems" ActFetchPostmortems input.

End Nodes.

(** ** More vocabulary: what a trace holds, what a query holds *)

Section TraceVocabulary.
Context {P : Platform} {W : World}.

(** The requests sent, the batches stored and the incidents mapped in a
    trace, in order. *)
Definition doCalls (tr : list Event) : list Request :=
  omap (λ e, match e with CallDo req => Some req | _ => None end) tr.

Definition storeCalls (tr : list Event) : list (list Document) :=
  omap (λ e, match e with CallStoreDocuments docs => Some docs | _ => None end) tr.

Definition mapperCalls (tr : list Event) : list Incident :=
  omap (λ e, match e with CallIncidentToDocument incident => Some incident
                     | _ => None end) tr.

(** The bodies handed to the JSON decoder in a trace, in order. *)
Definition decodeCalls (tr : list Event) : list Body :=
  omap (λ e, match e with CallDecode body => Some body | _ => None end) tr.


(** What of an incident the mapper reads. *)
Definition mappedView (incident : Incident)
  : string * string * string * string * string * option string * string
    * option string * string * Time :=
  (Incident_ID incident, Incident_Summary incident,
   Incident_Description incident, Incident_Status incident,
   Incident_Urgency incident,
   Priority_Name <$> Incident_Priority incident,
   Service_Name (Incident_Service incident),
   (λ a, Assignee_Name (Assignment_Assignee a))
     <$> head (Incident_Assignments incident),
   Incident_HTMLURL incident, Incident_UpdatedAt incident).

(** The stage labels of the activities and the kinds of client error. *)
Definition stageLabel (label : string) : Prop :=
  label = "list incidents" ∨ label = "get incident" ∨ label = "store documents".

End TraceVocabulary.

(** Every byte of [s] passes [p]. *)
Fixpoint string_forall (p : ascii → bool) (s : string) : bool :=
  match s with
  | EmptyString => true
  | String c rest => p c && string_forall p rest
  end.

(** The bytes of an encoded query: unreserved bytes, the escapes [%] and
    [+], and the separators [=] and [&]. *)
Definition queryByte (c : ascii) : bool :=
  negb (shouldEscape c)
  || Ascii.eqb c "%" || Ascii.eqb c "+" || Ascii.eqb c "=" || Ascii.eqb c "&".

(** ** Servers that fail

    A world over the sample platform from its five answers. *)

Module Outage.

Definition world (check : option error)
    (transport : error + @Response)
    (decodeList : error + @IncidentListResponse Sample.platform)
    (decodeIncident : error + @Incident Sample.platform)
    (store : error + string)
  : @World Sample.platform :=
  {| http_NewRequest_check := λ _ _ _, check;
     http_Client_Do := λ _ _, transport;
     json_Decode_IncidentListResponse := λ _, decodeList;
     json_Decode_Incident := λ _, decodeIncident;
     transform_StoreDocuments := λ _ _, store |}.

Definition ok (body : string) : error + @Response :=
  inr {| Response_StatusCode := 200;
         Response_Body := {| Body_data := body; Body_err := None |} |}.

Definition badURL : error := errorString "invalid URL escape".
Definition timeout : error := errorString "context deadline exceeded".
Definition badJSON : error := errorString "unexpected end of JSON input".
Definition quota : error := errorString "disk quota exceeded".

(** The request cannot be built. *)
Definition unbuildable : @World Sample.platform :=
  world (Some badURL) (ok "{}") (inr Sample.listing) (inr Sample.inc3) (inr "ref-1").

(** The request times out. *)
Definition unreachable : @World Sample.platform :=
  world None (inl timeout) (inr Sample.listing) (inr Sample.inc3) (inr "ref-1").

(** The server answers 200 with a body that does not decode. *)
Definition garbled : @World Sample.platform :=
  world None (ok "{") (inl badJSON) (inl badJSON) (inr "ref-1").

(** The server answers 200 with no incident at all. *)
Definition emptyListing : @IncidentListResponse Sample.platform :=
  {| IncidentListResponse_Incidents := [];
     IncidentListResponse_Limit := 100;
     IncidentListResponse_Offset := 0;
     IncidentListResponse_Total := 0;
     IncidentListResponse_More := false |}.

Definition quiet : @World Sample.platform :=
  world None (ok "{}") (inr emptyListing) (inr Sample.inc3) (inr "ref-0").

(** The third sample incident with everything the mapper does not read
    changed. *)
Definition inc3' : @Incident Sample.platform :=
  {| Incident_ID := "I3"; Incident_Type := "incident_reference";
     Incident_Summary := "outage"; Incident_Description := "db failover";
     Incident_Status := "resolved"; Incident_Urgency := "high";
     Incident_Priority :=
       Some {| Priority_ID := "PR9"; Priority_Name := "P1";
               Priority_Summary := "highest" |};
     Incident_CreatedAt := "2023-12-31T23:59:59Z" : @Time Sample.platform;
     Incident_UpdatedAt := "2024-01-15T11:00:00Z" : @Time Sample.platform;
     Incident_ResolvedAt := Some ("2024-01-15T10:45:00Z" : @Time Sample.platform);
     Incident_Service :=
       {| Service_ID := "S2"; Service_Name := "checkout"; Service_Summary := "x" |};
     Incident_Assignments :=
       [{| Assignment_At := "2024-01-15T10:06:00Z" : @Time Sample.platform;
           Assignment_Assignee :=
             {| Assignee_ID := "U7"; Assignee_Name := "bo";
                Assignee_Summary := "Bo" |} |}];
     Incident_EscalationPolicy :=
       {| EscalationPolicy_ID := "E2"; EscalationPolicy_Name := "night";
          EscalationPolicy_Summary := "" |};
     Incident_HTMLURL := "https://example.pagerduty.com/incidents/I3" |}.

End Outage.

(** * Properties *)

(** ** Strings *)

Lemma string_app_assoc (a b c : string) : (a +:+ b) +:+ c = a +:+ (b +:+ c).
Proof.
  induction a as [|ch a IH]; [reflexivity |].
  change (String ch ((a +:+ b) +:+ c) = String ch (a +:+ (b +:+ c))).
  now rewrite IH.
Qed.

Lemma string_app_nil_r (a : string) : a +:+ "" = a.
Proof.
  induction a as [|ch a IH]; [reflexivity |].
  change (String ch (a +:+ "") = String ch a).
  now rewrite IH.
Qed.

Lemma Contains_infix (pre s post : string) : Contains (pre +:+ s +:+ post) s.
Proof. now exists pre, post. Qed.

Lemma Contains_suffix (pre s : string) : Contains (pre +:+ s) s.
Proof. exists pre, "". now rewrite string_app_nil_r. Qed.

Lemma Contains_refl (s : string) : Contains s s.
Proof. exists "", "". now rewrite string_app_nil_r. Qed.

Lemma Contains_app_l (pre s x : string) : Contains s x → Contains (pre +:+ s) x.
Proof.
  intros (a & b & ->). exists (pre +:+ a), b.
  now rewrite string_app_assoc.
Qed.

Lemma Contains_app_r (s post x : string) : Contains s x → Contains (s +:+ post) x.
Proof.
  intros (a & b & ->). exists a, (b +:+ post).
  now rewrite !string_app_assoc.
Qed.

(** ** Errors *)

Lemma apiError_Contains_status (code : Z) (body : string) :
  Contains (Error (apiError code body)) (fmt_d code).
Proof. apply Contains_infix. Qed.

Lemma apiError_Contains_body (code : Z) (body : string) :
  Contains (Error (apiError code body)) body.
Proof. cbn [Error apiError]. do 3 apply Contains_app_l. apply Contains_refl. Qed.

Lemma Errorf_w_Contains (label : string) (err : error) (x : string) :
  Contains (Error err) x → Contains (Error (Errorf_w label err)) x.
Proof. intros Hx. cbn [Error Errorf_w]. now do 2 apply Contains_app_l. Qed.

(** ** The document mapper *)

Section MapperProperties.
Context {P : Platform}.

(** C1. The content of the mapped document is the summary alone when the
    description is empty, and otherwise the summary, two line feeds and
    the description. *)
Theorem incidentToDocument_content (incident : Incident) :
  Document_Content (incidentToDocument incident) =
    if decide (Incident_Description incident = "")
    then Incident_Summary incident
    else Incident_Summary incident
           +:+ String "010"%char (String "010"%char "")
           +:+ Incident_Description incident.
Proof.
  unfold incidentToDocument; simpl.
  destruct (decide (Incident_Description incident = "")) as [Heq | Hne].
  - rewrite decide_False by (intros Hn; now apply Hn). reflexivity.
  - rewrite decide_True by assumption. reflexivity.
Qed.

(** C2. The metadata of the mapped document has the keys [incident_id],
    [status], [urgency] and [service], the key [priority] exactly when
    the incident has a priority (with the priority's name), the key
    [assignee] exactly when it has an assignment (with the name of the
    first assignee), and no other key. *)
Theorem incidentToDocument_metadata (incident : Incident) :
  let metadata := Document_Metadata (incidentToDocument incident) in
  dom metadata =
    baseKeys
    ∪ match Incident_Priority incident with
      | Some _ => {["priority"]}
      | None => ∅
      end
    ∪ match Incident_Assignments incident with
      | _ :: _ => {["assignee"]}
      | [] => ∅
      end
  ∧ metadata !! "incident_id" = Some (Incident_ID incident)
  ∧ metadata !! "status" = Some (Incident_Status incident)
  ∧ metadata !! "urgency" = Some (Incident_Urgency incident)
  ∧ metadata !! "service" = Some (Service_Name (Incident_Service incident))
  ∧ metadata !! "priority" = Priority_Name <$> Incident_Priority incident
  ∧ metadata !! "assignee" =
      (λ a, Assignee_Name (Assignment_Assignee a))
        <$> head (Incident_Assignments incident).
Proof.
  unfold incidentToDocument, baseKeys; simpl.
  destruct (Incident_Priority incident) as [priority|];
    destruct (Incident_Assignments incident) as [|first rest]; simpl;
    (split; [rewrite ?dom_insert_L, dom_empty_L; set_solver |]);
    repeat split; by simplify_map_eq.
Qed.

End MapperProperties.

(** ** The activities *)

Section ActivityProperties.
Context {P : Platform} {W : World}.

Lemma bind_pair {A B : Type} (a : A) (tr : list Event) (f : A → M B) :
  bind (a, tr) f = (fst (f a), tr ++ snd (f a)).
Proof. unfold bind. now destruct (f a). Qed.

(** The loop of [FetchIncidentsActivity] appends the document of every
    incident, in order, and calls the mapper once per incident. *)
Lemma incidents_loop (incidents : list Incident) (acc : list Document) :
  for_range incidents
    (λ incident docs,
       do doc <- call_incidentToDocument incident;
       ret (docs ++ [doc]))
    acc
  = (acc ++ map incidentToDocument incidents,
     map CallIncidentToDocument incidents).
Proof.
  revert acc. induction incidents as [|incident rest IH]; intros acc.
  - cbn. now rewrite app_nil_r.
  - cbn [for_range]. unfold call_incidentToDocument, call, ret.
    rewrite !bind_pair. cbn [fst snd]. rewrite IH. cbn.
    now rewrite <- app_assoc.
Qed.

(** The loop of [FetchPostmortemsActivity] appends the tagged document
    of every resolved incident, in order, and calls the mapper on
    resolved incidents only. *)
Lemma postmortems_loop (incidents : list Incident) (acc : list Document) :
  for_range incidents
    (λ incident docs,
       if decide (Incident_Status incident = "resolved") then
         do doc <- call_incidentToDocument incident;
         let doc := tagPostmortem doc in
         ret (docs ++ [doc])
       else ret docs)
    acc
  = (acc ++ postmortemDocuments_spec incidents,
     map CallIncidentToDocument (resolved incidents)).
Proof.
  unfold postmortemDocuments_spec, resolved.
  revert acc. induction incidents as [|incident rest IH]; intros acc.
  - cbn. now rewrite app_nil_r.
  - cbn [for_range].
    destruct (decide (Incident_Status incident = "resolved")) as [Hres | Hres].
    + rewrite filter_cons_True by exact Hres.
      unfold call_incidentToDocument, call, ret.
      rewrite !bind_pair. cbn [fst snd]. rewrite IH. cbn.
      now rewrite <- app_assoc.
    + rewrite filter_cons_False by exact Hres.
      unfold ret. rewrite bind_pair. now rewrite IH.
Qed.

(** What [ListIncidents] records: its own call, then calls below it. *)
Lemma ListIncidents_trace (c : Client) (ctx : context_Context)
    (since until : option Time) (limit : Z) :
  ∃ rest, snd (ListIncidents c ctx since until limit)
          = CallListIncidents since until limit :: rest
          ∧ Forall transportCall rest.
Proof.
  unfold ListIncidents, call. rewrite bind_pair.
  destruct (http_NewRequestWithContext ctx "GET" _) as [err | req].
  { eexists. split; [reflexivity | constructor]. }
  unfold Do, call, ret. rewrite !bind_pair. cbn [fst snd].
  destruct (http_Client_Do _ _) as [err | resp].
  { eexists. split; [reflexivity | repeat constructor]. }
  destruct (decide (Response_StatusCode resp ≠ 200)).
  - unfold io_ReadAll, call, ret. rewrite !bind_pair.
    eexists. split; [reflexivity | repeat constructor].
  - unfold Decode_IncidentListResponse, call, ret. rewrite !bind_pair.
    cbn [fst snd].
    destruct (json_Decode_IncidentListResponse _);
      eexists; (split; [reflexivity | repeat constructor]).
Qed.

Lemma GetIncident_trace (c : Client) (ctx : context_Context) (incidentID : string) :
  ∃ rest, snd (GetIncident c ctx incidentID) = CallGetIncident incidentID :: rest
          ∧ Forall transportCall rest.
Proof.
  unfold GetIncident, call. rewrite bind_pair.
  destruct (http_NewRequestWithContext ctx "GET" _) as [err | req].
  { eexists. split; [reflexivity | constructor]. }
  unfold Do, call, ret. rewrite !bind_pair. cbn [fst snd].
  destruct (http_Client_Do _ _) as [err | resp].
  { eexists. split; [reflexivity | repeat constructor]. }
  destruct (decide (Response_StatusCode resp ≠ 200)).
  - unfold io_ReadAll, call, ret. rewrite !bind_pair.
    eexists. split; [reflexivity | repeat constructor].
  - unfold Decode_Incident, call, ret. rewrite !bind_pair. cbn [fst snd].
    destruct (json_Decode_Incident _);
      eexists; (split; [reflexivity | repeat constructor]).
Qed.

(** A request that can be built is sent, to the endpoint of the call and
    with the three headers of [setAuth]. *)
Lemma ListIncidents_sends (c : Client) (ctx : context_Context)
    (since until : option Time) (limit : Z) :
  http_NewRequest_check ctx "GET" (ListIncidents_endpoint since until limit) = None →
  ∃ rest, snd (ListIncidents c ctx since until limit)
          = CallListIncidents since until limit
              :: CallDo (requestFor c ctx (ListIncidents_endpoint since until limit))
              :: rest.
Proof.
  intros Hcheck.
  unfold ListIncidents, http_NewRequestWithContext, call. rewrite Hcheck.
  fold (requestFor c ctx (ListIncidents_endpoint since until limit)).
  unfold Do, call, ret. rewrite !bind_pair. cbn [fst snd app].
  now eexists.
Qed.

Lemma requestFor_Header (c : Client) (ctx : context_Context) (url : string) :
  Request_Header (requestFor c ctx url)
  = <["Content-Type" := ["application/json"]]>
      (<["Accept" := ["application/json"]]>
         (<["Authorization" := ["Token token=" +:+ Client_apiKey c]]> ∅)).
Proof. reflexivity. Qed.

(** A response other than 200: the body is read, nothing is decoded. *)
Lemma ListIncidents_non200 (c : Client) (ctx : context_Context)
    (since until : option Time) (limit : Z) (resp : Response) :
  answers c ctx (ListIncidents_endpoint since until limit) resp →
  Response_StatusCode resp ≠ 200 →
  ListIncidents c ctx since until limit
  = (inl (apiError (Response_StatusCode resp) (Body_data (Response_Body resp))),
     [CallListIncidents since until limit;
      CallDo (requestFor c ctx (ListIncidents_endpoint since until limit));
      CallReadAll (Response_Body resp)]).
Proof.
  intros [Hcheck Hdo] Hcode.
  unfold ListIncidents, http_NewRequestWithContext, call. rewrite Hcheck.
  fold (requestFor c ctx (ListIncidents_endpoint since until limit)).
  unfold Do, call, ret. rewrite !bind_pair, Hdo. cbn [fst snd].
  rewrite decide_True by exact Hcode.
  unfold io_ReadAll, call, ret. now rewrite !bind_pair.
Qed.

Lemma GetIncident_non200 (c : Client) (ctx : context_Context) (incidentID : string)
    (resp : Response) :
  answers c ctx (GetIncident_endpoint incidentID) resp →
  Response_StatusCode resp ≠ 200 →
  GetIncident c ctx incidentID
  = (inl (apiError (Response_StatusCode resp) (Body_data (Response_Body resp))),
     [CallGetIncident incidentID;
      CallDo (requestFor c ctx (GetIncident_endpoint incidentID));
      CallReadAll (Response_Body resp)]).
Proof.
  intros [Hcheck Hdo] Hcode.
  unfold GetIncident, http_NewRequestWithContext, call. rewrite Hcheck.
  fold (requestFor c ctx (GetIncident_endpoint incidentID)).
  unfold Do, call, ret. rewrite !bind_pair, Hdo. cbn [fst snd].
  rewrite decide_True by exact Hcode.
  unfold io_ReadAll, call, ret. now rewrite !bind_pair.
Qed.

(** The three activities, in terms of what the client returns. *)
Lemma FetchIncidentsActivity_unfold (ctx : context_Context) (input : FetchIncidentsInput) :
  FetchIncidentsActivity ctx input =
    let (r, tr0) :=
      ListIncidents (clientFor (FetchIncidentsInput_APIKey input)) ctx
        (FetchIncidentsInput_Since input) (FetchIncidentsInput_Until input)
        (activityLimit (FetchIncidentsInput_Limit input)) in
    match r with
    | inl err =>
        ((FetchIncidentsOutput_zero, Some (Errorf_w "list incidents" err)), tr0)
    | inr result =>
        let incidents := IncidentListResponse_Incidents result in
        let docs := map incidentToDocument incidents in
        (match transform_StoreDocuments ctx docs with
         | inl err =>
             (FetchIncidentsOutput_zero, Some (Errorf_w "store documents" err))
         | inr ref =>
             ({| FetchIncidentsOutput_Ref := ref;
                 FetchIncidentsOutput_Count := len incidents;
                 FetchIncidentsOutput_Total := IncidentListResponse_Total result |},
              None)
         end,
         tr0 ++ map CallIncidentToDocument incidents ++ [CallStoreDocuments docs])
    end.
Proof.
  unfold FetchIncidentsActivity, clientFor, activityLimit.
  destruct (ListIncidents _ _ _ _ _) as [[err | result] tr0].
  - rewrite bind_pair. cbn. now rewrite app_nil_r.
  - rewrite bind_pair, incidents_loop, bind_pair.
    unfold StoreDocuments, call, ret. rewrite !bind_pair. cbn [fst snd app].
    unfold len. rewrite length_map.
    destruct (transform_StoreDocuments _ _); cbn; now rewrite ?app_nil_r.
Qed.

Lemma FetchPostmortemsActivity_unfold (ctx : context_Context) (input : FetchPostmortemsInput) :
  FetchPostmortemsActivity ctx input =
    let (r, tr0) :=
      ListIncidents (clientFor (FetchPostmortemsInput_APIKey input)) ctx
        (FetchPostmortemsInput_Since input) None
        (activityLimit (FetchPostmortemsInput_Limit input)) in
    match r with
    | inl err =>
        ((FetchPostmortemsOutput_zero, Some (Errorf_w "list incidents" err)), tr0)
    | inr result =>
        let incidents := IncidentListResponse_Incidents result in
        let docs := postmortemDocuments_spec incidents in
        (match transform_StoreDocuments ctx docs with
         | inl err =>
             (FetchPostmortemsOutput_zero, Some (Errorf_w "store documents" err))
         | inr ref =>
             ({| FetchPostmortemsOutput_Ref := ref;
                 FetchPostmortemsOutput_Count := len docs |},
              None)
         end,
         tr0 ++ map CallIncidentToDocument (resolved incidents)
             ++ [CallStoreDocuments docs])
    end.
Proof.
  unfold FetchPostmortemsActivity, clientFor, activityLimit.
  destruct (ListIncidents _ _ _ _ _) as [[err | result] tr0].
  - rewrite bind_pair. cbn. now rewrite app_nil_r.
  - rewrite bind_pair, postmortems_loop, bind_pair.
    unfold StoreDocuments, call, ret. rewrite !bind_pair. cbn [fst snd app].
    destruct (transform_StoreDocuments _ _); cbn; now rewrite ?app_nil_r.
Qed.

Lemma FetchIncidentActivity_unfold (ctx : context_Context) (input : FetchIncidentInput) :
  FetchIncidentActivity ctx input =
    let (r, tr0) :=
      GetIncident (clientFor (FetchIncidentInput_APIKey input)) ctx
        (FetchIncidentInput_IncidentID input) in
    match r with
    | inl err =>
        ((FetchIncidentOutput_zero, Some (Errorf_w "get incident" err)), tr0)
    | inr incident =>
        (({| FetchIncidentOutput_Document := incidentToDocument incident;
             FetchIncidentOutput_Found := true |},
          None),
         tr0 ++ [CallIncidentToDocument incident])
    end.
Proof.
  unfold FetchIncidentActivity, clientFor.
  destruct (GetIncident _ _ _) as [[err | incident] tr0].
  - rewrite bind_pair. cbn. now rewrite app_nil_r.
  - rewrite bind_pair. unfold call_incidentToDocument, call, ret.
    now rewrite !bind_pair.
Qed.

(** ** Which calls of [ListIncidents] a run makes *)

Lemma transportCall_listCall (tr : list Event) :
  Forall transportCall tr → listCalls tr = [].
Proof.
  induction 1 as [|e tr He _ IH]; [reflexivity |].
  unfold listCalls in *. destruct e; now cbn in *.
Qed.

Lemma listCalls_app (tr1 tr2 : list Event) :
  listCalls (tr1 ++ tr2) = listCalls tr1 ++ listCalls tr2.
Proof. apply omap_app. Qed.

Lemma listCalls_mapper (incidents : list Incident) :
  listCalls (map CallIncidentToDocument incidents) = [].
Proof. induction incidents; [reflexivity | assumption]. Qed.

Lemma listCalls_ListIncidents (c : Client) (ctx : context_Context)
    (since until : option Time) (limit : Z) :
  listCalls (snd (ListIncidents c ctx since until limit)) = [(since, until, limit)].
Proof.
  destruct (ListIncidents_trace c ctx since until limit) as (rest & -> & Hrest).
  change (listCalls (CallListIncidents since until limit :: rest))
    with ((since, until, limit) :: listCalls rest).
  now rewrite transportCall_listCall.
Qed.

Lemma listCalls_GetIncident (c : Client) (ctx : context_Context) (incidentID : string) :
  listCalls (snd (GetIncident c ctx incidentID)) = [].
Proof.
  destruct (GetIncident_trace c ctx incidentID) as (rest & -> & Hrest).
  change (listCalls (CallGetIncident incidentID :: rest)) with (listCalls rest).
  now apply transportCall_listCall.
Qed.

Lemma listCalls_FetchIncidentsActivity (ctx : context_Context) (input : FetchIncidentsInput) :
  listCalls (snd (FetchIncidentsActivity ctx input))
  = [(FetchIncidentsInput_Since input, FetchIncidentsInput_Until input,
      activityLimit (FetchIncidentsInput_Limit input))].
Proof.
  rewrite FetchIncidentsActivity_unfold.
  pose proof (listCalls_ListIncidents
                (clientFor (FetchIncidentsInput_APIKey input)) ctx
                (FetchIncidentsInput_Since input) (FetchIncidentsInput_Until input)
                (activityLimit (FetchIncidentsInput_Limit input))) as Hcalls.
  destruct (ListIncidents _ _ _ _ _) as [[err | result] tr0]; cbn [snd] in *.
  - exact Hcalls.
  - rewrite !listCalls_app, listCalls_mapper, Hcalls. reflexivity.
Qed.

Lemma listCalls_FetchPostmortemsActivity (ctx : context_Context) (input : FetchPostmortemsInput) :
  listCalls (snd (FetchPostmortemsActivity ctx input))
  = [(FetchPostmortemsInput_Since input, None,
      activityLimit (FetchPostmortemsInput_Limit input))].
Proof.
  rewrite FetchPostmortemsActivity_unfold.
  pose proof (listCalls_ListIncidents
                (clientFor (FetchPostmortemsInput_APIKey input)) ctx
                (FetchPostmortemsInput_Since input) None
                (activityLimit (FetchPostmortemsInput_Limit input))) as Hcalls.
  destruct (ListIncidents _ _ _ _ _) as [[err | result] tr0]; cbn [snd] in *.
  - exact Hcalls.
  - rewrite !listCalls_app, listCalls_mapper, Hcalls. reflexivity.
Qed.

Lemma listCalls_FetchIncidentActivity (ctx : context_Context) (input : FetchIncidentInput) :
  listCalls (snd (FetchIncidentActivity ctx input)) = [].
Proof.
  rewrite FetchIncidentActivity_unfold.
  pose proof (listCalls_GetIncident
                (clientFor (FetchIncidentInput_APIKey input)) ctx
                (FetchIncidentInput_IncidentID input)) as Hcalls.
  destruct (GetIncident _ _ _) as [[err | incident] tr0]; cbn [snd] in *.
  - exact Hcalls.
  - rewrite listCalls_app, Hcalls. reflexivity.
Qed.

(** The query parameter [limit] built by [ListIncidents]. *)
Lemma ListIncidents_params_limit (since until : option Time) (limit : Z) :
  ListIncidents_params since until limit !! "limit"
  = Some [fmt_d (if decide (limit ≤ 0) then 25 else limit)].
Proof.
  unfold ListIncidents_params, Values_Set.
  destruct since, until; by simplify_map_eq.
Qed.

Lemma activityLimit_positive (limit : Z) : 0 < activityLimit limit.
Proof. unfold activityLimit. case_decide; lia. Qed.

(** ** Limits and bounds passed to [ListIncidents] *)

(** C4. With a limit of zero or less in the input, [FetchIncidentsActivity]
    and [FetchPostmortemsActivity] call [ListIncidents] with the limit
    100; with a positive limit they pass it on unchanged.
    [ListIncidents] itself, called with a limit of zero or less, asks
    the server for 25 incidents and returns what it returns for 25; a
    positive limit goes into the query as it is. *)
Theorem limit_defaults (ctx : context_Context) (c : Client)
    (incidentsInput : FetchIncidentsInput)
    (postmortemsInput : FetchPostmortemsInput)
    (since until : option Time) (limit : Z) :
  let incidentsCalls := listCalls (snd (FetchIncidentsActivity ctx incidentsInput)) in
  let postmortemsCalls :=
    listCalls (snd (FetchPostmortemsActivity ctx postmortemsInput)) in
  (FetchIncidentsInput_Limit incidentsInput ≤ 0 →
     incidentsCalls
     = [(FetchIncidentsInput_Since incidentsInput,
         FetchIncidentsInput_Until incidentsInput, 100)])
  ∧ (0 < FetchIncidentsInput_Limit incidentsInput →
     incidentsCalls
     = [(FetchIncidentsInput_Since incidentsInput,
         FetchIncidentsInput_Until incidentsInput,
         FetchIncidentsInput_Limit incidentsInput)])
  ∧ (FetchPostmortemsInput_Limit postmortemsInput ≤ 0 →
     postmortemsCalls
     = [(FetchPostmortemsInput_Since postmortemsInput, None, 100)])
  ∧ (0 < FetchPostmortemsInput_Limit postmortemsInput →
     postmortemsCalls
     = [(FetchPostmortemsInput_Since postmortemsInput, None,
         FetchPostmortemsInput_Limit postmortemsInput)])
  ∧ (limit ≤ 0 →
     ListIncidents_params since until limit !! "limit" = Some ["25"]
     ∧ ListIncidents_endpoint since until limit
       = ListIncidents_endpoint since until 25
     ∧ fst (ListIncidents c ctx since until limit)
       = fst (ListIncidents c ctx since until 25))
  ∧ (0 < limit →
     ListIncidents_params since until limit !! "limit" = Some [fmt_d limit]).
Proof.
  cbn zeta.
  rewrite listCalls_FetchIncidentsActivity, listCalls_FetchPostmortemsActivity.
  unfold activityLimit.
  split_and!; intros Hlimit; [| | | | split_and! |].
  - now rewrite decide_True.
  - now rewrite decide_False by lia.
  - now rewrite decide_True.
  - now rewrite decide_False by lia.
  - rewrite ListIncidents_params_limit. now rewrite decide_True.
  - unfold ListIncidents_endpoint, ListIncidents_params.
    now rewrite decide_True, decide_False by lia.
  - unfold ListIncidents, ListIncidents_endpoint, ListIncidents_params.
    rewrite decide_True, decide_False by lia.
    unfold call. now rewrite !bind_pair.
  - rewrite ListIncidents_params_limit. now rewrite decide_False by lia.
Qed.

(** C8. [FetchPostmortemsActivity] calls [ListIncidents] once, with the
    [since] bound of its input and no [until] bound, so the query has no
    [until] parameter; its output record is a reference handle and a
    count, nothing else. *)
Theorem FetchPostmortemsActivity_since_only (ctx : context_Context)
    (input : FetchPostmortemsInput) (out : FetchPostmortemsOutput) :
  listCalls (snd (FetchPostmortemsActivity ctx input))
  = [(FetchPostmortemsInput_Since input, None,
      activityLimit (FetchPostmortemsInput_Limit input))]
  ∧ (∀ limit,
       ListIncidents_params (FetchPostmortemsInput_Since input) None limit
         !! "until" = None)
  ∧ out = {| FetchPostmortemsOutput_Ref := FetchPostmortemsOutput_Ref out;
             FetchPostmortemsOutput_Count := FetchPostmortemsOutput_Count out |}.
Proof.
  split_and!; [apply listCalls_FetchPostmortemsActivity | | now destruct out].
  intros limit. unfold ListIncidents_params, Values_Set.
  destruct (FetchPostmortemsInput_Since input); by simplify_map_eq.
Qed.

(** C10. Every call of [ListIncidents] made by an activity has a positive
    limit, which goes into the query as it is: the branch of
    [ListIncidents] that replaces a limit of zero or less by 25 is not
    taken on a run of an activity. [FetchIncidentActivity] makes no such
    call. *)
Theorem activities_pass_positive_limit (ctx : context_Context)
    (incidentsInput : FetchIncidentsInput)
    (incidentInput : FetchIncidentInput)
    (postmortemsInput : FetchPostmortemsInput) :
  Forall passesLimitThrough
    (listCalls (snd (FetchIncidentsActivity ctx incidentsInput)))
  ∧ Forall passesLimitThrough
      (listCalls (snd (FetchPostmortemsActivity ctx postmortemsInput)))
  ∧ listCalls (snd (FetchIncidentActivity ctx incidentInput)) = [].
Proof.
  rewrite listCalls_FetchIncidentsActivity, listCalls_FetchPostmortemsActivity,
    listCalls_FetchIncidentActivity.
  assert (Hpass : ∀ since until limit,
             passesLimitThrough (since, until, activityLimit limit)).
  { intros since until limit. split; [apply activityLimit_positive |].
    rewrite ListIncidents_params_limit.
    pose proof (activityLimit_positive limit).
    now rewrite decide_False by lia. }
  split_and!; [| | reflexivity];
    (constructor; [apply Hpass | constructor]).
Qed.

(** ** Documents produced *)

Lemma postmortemDocuments_spec_ids (incidents : list Incident) :
  Forall2 (λ incident doc, Document_ID doc = Incident_ID incident)
    (resolved incidents) (postmortemDocuments_spec incidents).
Proof.
  unfold postmortemDocuments_spec.
  induction (resolved incidents) as [|incident rest IH]; constructor;
    [reflexivity | exact IH].
Qed.

Lemma postmortemDocuments_spec_tagged (incidents : list Incident) :
  Forall (λ doc, Document_Metadata doc !! "document_type" = Some "postmortem")
    (postmortemDocuments_spec incidents).
Proof.
  unfold postmortemDocuments_spec.
  induction (resolved incidents) as [|incident rest IH]; constructor;
    [apply lookup_insert_eq | exact IH].
Qed.

Lemma incidentToDocument_untagged (incident : Incident) :
  Document_Metadata (incidentToDocument incident) !! "document_type" = None.
Proof.
  unfold incidentToDocument; simpl.
  destruct (Incident_Priority incident), (Incident_Assignments incident);
    by simplify_map_eq.
Qed.

(** C3. When [ListIncidents] returns a list of incidents,
    [FetchPostmortemsActivity] maps the incidents whose status is
    [resolved], and no other, and stores one document for each of them,
    in order; every stored document has the metadata entry
    [document_type = postmortem]. For the statuses triggered,
    acknowledged, resolved, resolved it stores two documents. *)
Theorem FetchPostmortemsActivity_resolved_only (ctx : context_Context)
    (input : FetchPostmortemsInput) (result : IncidentListResponse)
    (tr0 : list Event) :
  ListIncidents (clientFor (FetchPostmortemsInput_APIKey input)) ctx
    (FetchPostmortemsInput_Since input) None
    (activityLimit (FetchPostmortemsInput_Limit input))
  = (inr result, tr0) →
  let incidents := IncidentListResponse_Incidents result in
  ∃ docs,
    snd (FetchPostmortemsActivity ctx input)
    = tr0 ++ map CallIncidentToDocument (resolved incidents)
          ++ [CallStoreDocuments docs]
    ∧ Forall2 (λ incident doc, Document_ID doc = Incident_ID incident)
        (resolved incidents) docs
    ∧ length docs = length (resolved incidents)
    ∧ Forall (λ doc, Document_Metadata doc !! "document_type" = Some "postmortem")
        docs
    ∧ (map Incident_Status incidents
       = ["triggered"; "acknowledged"; "resolved"; "resolved"] →
       length docs = 2%nat).
Proof.
  intros Hlist incidents.
  exists (postmortemDocuments_spec incidents).
  rewrite FetchPostmortemsActivity_unfold, Hlist. fold incidents.
  split_and!.
  - reflexivity.
  - apply postmortemDocuments_spec_ids.
  - unfold postmortemDocuments_spec. apply length_map.
  - apply postmortemDocuments_spec_tagged.
  - intros Hstatuses. unfold postmortemDocuments_spec. rewrite length_map.
    destruct incidents as [|i1 [|i2 [|i3 [|i4 [|i5 rest]]]]]; try discriminate.
    injection Hstatuses as H1 H2 H3 H4.
    unfold resolved.
    rewrite filter_cons_False by (rewrite H1; discriminate).
    rewrite filter_cons_False by (rewrite H2; discriminate).
    rewrite filter_cons_True by exact H3.
    rewrite filter_cons_True by exact H4.
    reflexivity.
Qed.

(** C9. The documents produced by [FetchPostmortemsActivity] are the ones
    the specification describes: the incident list filtered to the status
    [resolved], in the order of the list response, each mapped by
    [incidentToDocument] and given the metadata entry [document_type],
    which the mapper itself never sets; nothing else of a document
    changes. *)
Theorem FetchPostmortemsActivity_refines_spec (ctx : context_Context)
    (input : FetchPostmortemsInput) (result : IncidentListResponse)
    (tr0 : list Event) :
  ListIncidents (clientFor (FetchPostmortemsInput_APIKey input)) ctx
    (FetchPostmortemsInput_Since input) None
    (activityLimit (FetchPostmortemsInput_Limit input))
  = (inr result, tr0) →
  let incidents := IncidentListResponse_Incidents result in
  snd (FetchPostmortemsActivity ctx input)
  = tr0 ++ map CallIncidentToDocument (resolved incidents)
        ++ [CallStoreDocuments (postmortemDocuments_spec incidents)]
  ∧ postmortemDocuments_spec incidents
    = map (λ incident, tagPostmortem (incidentToDocument incident))
        (filter (λ incident, Incident_Status incident = "resolved") incidents)
  ∧ sublist (resolved incidents) incidents
  ∧ Forall2
      (λ incident doc,
         let mapped := incidentToDocument incident in
         Document_Metadata mapped !! "document_type" = None
         ∧ Document_Metadata doc
           = <["document_type" := "postmortem"]> (Document_Metadata mapped)
         ∧ delete "document_type" (Document_Metadata doc)
           = Document_Metadata mapped
         ∧ Document_ID doc = Document_ID mapped
         ∧ Document_Content doc = Document_Content mapped
         ∧ Document_Title doc = Document_Title mapped
         ∧ Document_Source doc = Document_Source mapped
         ∧ Document_URL doc = Document_URL mapped
         ∧ Document_UpdatedAt doc = Document_UpdatedAt mapped)
      (resolved incidents) (postmortemDocuments_spec incidents).
Proof.
  intros Hlist incidents.
  rewrite FetchPostmortemsActivity_unfold, Hlist. fold incidents.
  split_and!.
  - reflexivity.
  - reflexivity.
  - apply sublist_filter.
  - unfold postmortemDocuments_spec.
    induction (resolved incidents) as [|incident rest IH]; constructor;
      [| exact IH].
    cbn zeta. cbn [Document_Metadata Document_ID Document_Content Document_Title
                     Document_Source Document_URL Document_UpdatedAt].
    split_and!; try reflexivity.
    + apply incidentToDocument_untagged.
    + rewrite delete_insert_eq. apply delete_id, incidentToDocument_untagged.
Qed.

(** C5. A run of [FetchIncidentsActivity] succeeds exactly when the list
    step and the store step succeed; then the mapper is called once per
    incident of the response, in order, the documents stored are the
    mapped incidents in the same order, [Count] is the number of
    incidents of the response, [Total] is the total the server reported
    and [Ref] is the handle the store returned. *)
Theorem FetchIncidentsActivity_success (ctx : context_Context)
    (input : FetchIncidentsInput) (out : FetchIncidentsOutput)
    (tr : list Event) :
  FetchIncidentsActivity ctx input = ((out, None), tr)
  ↔ ∃ result ref tr0,
      let incidents := IncidentListResponse_Incidents result in
      let docs := map incidentToDocument incidents in
      ListIncidents (clientFor (FetchIncidentsInput_APIKey input)) ctx
        (FetchIncidentsInput_Since input) (FetchIncidentsInput_Until input)
        (activityLimit (FetchIncidentsInput_Limit input))
      = (inr result, tr0)
      ∧ transform_StoreDocuments ctx docs = inr ref
      ∧ tr = tr0 ++ map CallIncidentToDocument incidents
                 ++ [CallStoreDocuments docs]
      ∧ length docs = length incidents
      ∧ FetchIncidentsOutput_Ref out = ref
      ∧ FetchIncidentsOutput_Count out = len incidents
      ∧ FetchIncidentsOutput_Total out = IncidentListResponse_Total result.
Proof.
  rewrite FetchIncidentsActivity_unfold.
  destruct (ListIncidents _ _ _ _ _) as [[err | result] tr0].
  - split; [discriminate |]. intros (result & ref & tr1 & Hlist & _).
    discriminate.
  - cbn zeta. split.
    + destruct (transform_StoreDocuments _ _) as [err | ref] eqn:Hstore;
        [discriminate |].
      intros Hrun. injection Hrun as <- <-.
      exists result, ref, tr0. rewrite length_map. by split_and!.
    + intros (result' & ref & tr1 & Hlist & Hstore & -> & _ & Href & Hcount & Htotal).
      injection Hlist as <- <-. rewrite Hstore.
      destruct out as [oref ocount ototal]; cbn in *. by subst.
Qed.

(** C6. [FetchIncidentActivity] returns an error whenever the client
    fails, in particular on a response other than 200, and otherwise
    the document mapped from the fetched incident with [Found] true: no
    run succeeds with [Found] false. *)
Theorem FetchIncidentActivity_found (ctx : context_Context) (input : FetchIncidentInput) :
  let client :=
    GetIncident (clientFor (FetchIncidentInput_APIKey input)) ctx
      (FetchIncidentInput_IncidentID input) in
  let outcome := FetchIncidentActivity ctx input in
  (snd (fst outcome) ≠ None
   ∨ ∃ incident,
       fst client = inr incident
       ∧ fst outcome
         = ({| FetchIncidentOutput_Document := incidentToDocument incident;
               FetchIncidentOutput_Found := true |},
            None))
  ∧ (∀ err, fst client = inl err →
            fst outcome = (FetchIncidentOutput_zero, Some (Errorf_w "get incident" err)))
  ∧ (∀ resp,
       answers (clientFor (FetchIncidentInput_APIKey input)) ctx
         (GetIncident_endpoint (FetchIncidentInput_IncidentID input)) resp →
       Response_StatusCode resp ≠ 200 →
       snd (fst outcome) ≠ None)
  ∧ (∀ out, fst outcome = (out, None) → FetchIncidentOutput_Found out = true).
Proof.
  cbn zeta. rewrite FetchIncidentActivity_unfold. split_and!.
  - destruct (GetIncident _ _ _) as [[err | incident] tr0]; cbn.
    + now left.
    + right. now exists incident.
  - intros err. destruct (GetIncident _ _ _) as [[err' | incident] tr0]; cbn;
      [| discriminate].
    now intros [= ->].
  - intros resp Hanswer Hcode.
    now rewrite (GetIncident_non200 _ _ _ _ Hanswer Hcode).
  - intros out. destruct (GetIncident _ _ _) as [[err | incident] tr0]; cbn;
      [discriminate |].
    now intros [= <-].
Qed.

(** ** Failures *)

(** C7. On a response with a status other than 200, from either
    endpoint, the client returns an error whose message contains the
    status code in decimal and the body as read; the run consists of the
    client call, the request and the read of the body: nothing is
    decoded, the mapper is not called, nothing is stored. The activity
    returns its zero output and that error behind the label of the
    failing step, [list incidents] or [get incident]; a failure of the
    store comes back behind the label [store documents]. The wrapped
    message still contains the status code and the body. *)
Theorem non200_is_labelled_api_error (ctx : context_Context) (resp : Response) :
  Response_StatusCode resp ≠ 200 →
  let code := Response_StatusCode resp in
  let body := Body_data (Response_Body resp) in
  let err := apiError code body in
  (Contains (Error err) (fmt_d code) ∧ Contains (Error err) body)
  ∧ (∀ c since until limit,
       answers c ctx (ListIncidents_endpoint since until limit) resp →
       ListIncidents c ctx since until limit
       = (inl err,
          [CallListIncidents since until limit;
           CallDo (requestFor c ctx (ListIncidents_endpoint since until limit));
           CallReadAll (Response_Body resp)]))
  ∧ (∀ c incidentID,
       answers c ctx (GetIncident_endpoint incidentID) resp →
       GetIncident c ctx incidentID
       = (inl err,
          [CallGetIncident incidentID;
           CallDo (requestFor c ctx (GetIncident_endpoint incidentID));
           CallReadAll (Response_Body resp)]))
  ∧ (∀ input : FetchIncidentsInput,
       let c := clientFor (FetchIncidentsInput_APIKey input) in
       let since := FetchIncidentsInput_Since input in
       let until := FetchIncidentsInput_Until input in
       let limit := activityLimit (FetchIncidentsInput_Limit input) in
       answers c ctx (ListIncidents_endpoint since until limit) resp →
       FetchIncidentsActivity ctx input
       = ((FetchIncidentsOutput_zero, Some (Errorf_w "list incidents" err)),
          [CallListIncidents since until limit;
           CallDo (requestFor c ctx (ListIncidents_endpoint since until limit));
           CallReadAll (Response_Body resp)]))
  ∧ (∀ input : FetchPostmortemsInput,
       let c := clientFor (FetchPostmortemsInput_APIKey input) in
       let since := FetchPostmortemsInput_Since input in
       let limit := activityLimit (FetchPostmortemsInput_Limit input) in
       answers c ctx (ListIncidents_endpoint since None limit) resp →
       FetchPostmortemsActivity ctx input
       = ((FetchPostmortemsOutput_zero, Some (Errorf_w "list incidents" err)),
          [CallListIncidents since None limit;
           CallDo (requestFor c ctx (ListIncidents_endpoint since None limit));
           CallReadAll (Response_Body resp)]))
  ∧ (∀ input : FetchIncidentInput,
       let c := clientFor (FetchIncidentInput_APIKey input) in
       let incidentID := FetchIncidentInput_IncidentID input in
       answers c ctx (GetIncident_endpoint incidentID) resp →
       FetchIncidentActivity ctx input
       = ((FetchIncidentOutput_zero, Some (Errorf_w "get incident" err)),
          [CallGetIncident incidentID;
           CallDo (requestFor c ctx (GetIncident_endpoint incidentID));
           CallReadAll (Response_Body resp)]))
  ∧ (∀ label,
       Error (Errorf_w label err) = label +:+ ": " +:+ Error err
       ∧ Unwrap (Errorf_w label err) = Some err
       ∧ Contains (Error (Errorf_w label err)) (fmt_d code)
       ∧ Contains (Error (Errorf_w label err)) body)
  ∧ (∀ (input : FetchIncidentsInput) result tr0 failure,
       ListIncidents (clientFor (FetchIncidentsInput_APIKey input)) ctx
         (FetchIncidentsInput_Since input) (FetchIncidentsInput_Until input)
         (activityLimit (FetchIncidentsInput_Limit input))
       = (inr result, tr0) →
       transform_StoreDocuments ctx
         (map incidentToDocument (IncidentListResponse_Incidents result))
       = inl failure →
       fst (FetchIncidentsActivity ctx input)
       = (FetchIncidentsOutput_zero, Some (Errorf_w "store documents" failure)))
  ∧ (∀ (input : FetchPostmortemsInput) result tr0 failure,
       ListIncidents (clientFor (FetchPostmortemsInput_APIKey input)) ctx
         (FetchPostmortemsInput_Since input) None
         (activityLimit (FetchPostmortemsInput_Limit input))
       = (inr result, tr0) →
       transform_StoreDocuments ctx
         (postmortemDocuments_spec (IncidentListResponse_Incidents result))
       = inl failure →
       fst (FetchPostmortemsActivity ctx input)
       = (FetchPostmortemsOutput_zero, Some (Errorf_w "store documents" failure))).
Proof.
  intros Hcode code body err. split_and!.
  - apply apiError_Contains_status.
  - apply apiError_Contains_body.
  - intros c since until limit Hanswer.
    now apply ListIncidents_non200.
  - intros c incidentID Hanswer. now apply GetIncident_non200.
  - intros input c since until limit Hanswer. subst c since until limit.
    rewrite FetchIncidentsActivity_unfold.
    now rewrite (ListIncidents_non200 _ _ _ _ _ _ Hanswer Hcode).
  - intros input c since limit Hanswer. subst c since limit.
    rewrite FetchPostmortemsActivity_unfold.
    now rewrite (ListIncidents_non200 _ _ _ _ _ _ Hanswer Hcode).
  - intros input c incidentID Hanswer. subst c incidentID.
    rewrite FetchIncidentActivity_unfold.
    now rewrite (GetIncident_non200 _ _ _ _ Hanswer Hcode).
  - intros label. split_and!; [reflexivity | reflexivity | |].
    + apply Errorf_w_Contains, apiError_Contains_status.
    + apply Errorf_w_Contains, apiError_Contains_body.
  - intros input result tr0 failure Hlist Hstore.
    rewrite FetchIncidentsActivity_unfold, Hlist. cbn zeta.
    now rewrite Hstore.
  - intros input result tr0 failure Hlist Hstore.
    rewrite FetchPostmortemsActivity_unfold, Hlist. cbn zeta.
    now rewrite Hstore.
Qed.

End ActivityProperties.

(** ** The theorems on the sample server *)

(** The postmortem run on the sample listing stores two documents. *)
Lemma FetchPostmortemsActivity_resolved_only_sample :
  let c := clientFor "k" in
  let list := @ListIncidents _ Sample.up c tt (Some "2024-01-01T00:00:00Z") None 100 in
  list = (inr Sample.listing, snd list)
  ∧ ∃ docs,
      snd (@FetchPostmortemsActivity _ Sample.up tt (Sample.postmortemsInput 0))
      = snd list ++ map CallIncidentToDocument [Sample.inc3; Sample.inc4]
          ++ [CallStoreDocuments docs]
      ∧ length docs = 2%nat.
Proof.
  intros c list.
  assert (Hlist : list = (inr Sample.listing, snd list))
    by (vm_compute; reflexivity).
  split; [exact Hlist |].
  destruct (@FetchPostmortemsActivity_resolved_only Sample.platform Sample.up
              tt (Sample.postmortemsInput 0) Sample.listing (snd list) Hlist)
    as (docs & Htrace & _ & _ & _ & Hfour).
  exists docs. split; [exact Htrace | apply Hfour; reflexivity].
Defined.

(** Limits 0 and -3 become 100 at the activities and 25 in the client;
    limits 50, 7 and 10 are passed on. *)
Lemma limit_defaults_sample :
  (listCalls (snd (@FetchIncidentsActivity _ Sample.up tt (Sample.incidentsInput 0)))
   = [(None, Some "2024-02-01T00:00:00Z", 100)]
   ∧ listCalls (snd (@FetchPostmortemsActivity _ Sample.up tt (Sample.postmortemsInput (-3))))
     = [(Some "2024-01-01T00:00:00Z", None, 100)]
   ∧ @ListIncidents_params Sample.platform None None 0 !! "limit" = Some ["25"])
  ∧ (listCalls (snd (@FetchIncidentsActivity _ Sample.up tt (Sample.incidentsInput 50)))
     = [(None, Some "2024-02-01T00:00:00Z", 50)]
     ∧ listCalls (snd (@FetchPostmortemsActivity _ Sample.up tt (Sample.postmortemsInput 7)))
       = [(Some "2024-01-01T00:00:00Z", None, 7)]
     ∧ @ListIncidents_params Sample.platform None None 10 !! "limit" = Some ["10"]).
Proof.
  split.
  - destruct (@limit_defaults Sample.platform Sample.up tt (clientFor "k")
                (Sample.incidentsInput 0) (Sample.postmortemsInput (-3))
                None None 0)
      as (Hincidents & _ & Hpostmortems & _ & Hclient & _).
    split_and!.
    + apply Hincidents. simpl. lia.
    + apply Hpostmortems. simpl. lia.
    + apply Hclient. lia.
  - destruct (@limit_defaults Sample.platform Sample.up tt (clientFor "k")
                (Sample.incidentsInput 50) (Sample.postmortemsInput 7)
                None None 10)
      as (_ & Hincidents & _ & Hpostmortems & _ & Hclient).
    split_and!.
    + apply Hincidents. simpl. lia.
    + apply Hpostmortems. simpl. lia.
    + apply Hclient. lia.
Defined.

(** A successful run on the sample listing: four documents out of a total
    of seven, behind the handle of the store. *)
Lemma FetchIncidentsActivity_success_sample :
  let outcome := @FetchIncidentsActivity _ Sample.up tt (Sample.incidentsInput 0) in
  snd (fst outcome) = None
  ∧ ∃ result ref,
      transform_StoreDocuments (World := Sample.up) tt
        (map incidentToDocument (IncidentListResponse_Incidents result)) = inr ref
      ∧ FetchIncidentsOutput_Ref (fst (fst outcome)) = ref
      ∧ FetchIncidentsOutput_Count (fst (fst outcome))
        = len (IncidentListResponse_Incidents result)
      ∧ FetchIncidentsOutput_Total (fst (fst outcome))
        = IncidentListResponse_Total result.
Proof.
  intros outcome.
  assert (Hrun : outcome = ((fst (fst outcome), None), snd outcome))
    by (vm_compute; reflexivity).
  split; [now rewrite Hrun |].
  destruct (proj1 (@FetchIncidentsActivity_success Sample.platform Sample.up
                     tt (Sample.incidentsInput 0) (fst (fst outcome)) (snd outcome))
              Hrun)
    as (result & ref & tr0 & _ & Hstore & _ & _ & Href & Hcount & Htotal).
  exists result, ref. split_and!; assumption.
Defined.

(** The sample server answering 404: the single-incident run fails; the
    sample server answering 200: it succeeds with [Found] true. *)
Lemma FetchIncidentActivity_found_sample :
  snd (fst (@FetchIncidentActivity _ Sample.notFound tt Sample.incidentInput)) ≠ None
  ∧ FetchIncidentOutput_Found
      (fst (fst (@FetchIncidentActivity _ Sample.up tt Sample.incidentInput))) = true.
Proof.
  split.
  - destruct (@FetchIncidentActivity_found Sample.platform Sample.notFound
                tt Sample.incidentInput) as (_ & _ & Hnon200 & _).
    apply (Hnon200
             {| Response_StatusCode := 404;
                Response_Body := {| Body_data := Sample.notFoundBody;
                                    Body_err := None |} |}).
    + split; reflexivity.
    + simpl. lia.
  - destruct (@FetchIncidentActivity_found Sample.platform Sample.up
                tt Sample.incidentInput) as (_ & _ & _ & Hfound).
    apply Hfound. vm_compute. reflexivity.
Defined.

(** The sample server answering 404 with the body [{"error":"not found"}],
    and the sample server with a failing store. *)
Lemma non200_is_labelled_api_error_sample :
  let resp : @Response :=
    {| Response_StatusCode := 404;
       Response_Body := {| Body_data := Sample.notFoundBody; Body_err := None |} |} in
  let err := apiError 404 Sample.notFoundBody in
  (Contains (Error (Errorf_w "list incidents" err)) "404"
   ∧ Contains (Error (Errorf_w "list incidents" err)) Sample.notFoundBody
   ∧ fst (@FetchIncidentsActivity _ Sample.notFound tt (Sample.incidentsInput 0))
     = (FetchIncidentsOutput_zero, Some (Errorf_w "list incidents" err))
   ∧ fst (@FetchPostmortemsActivity _ Sample.notFound tt (Sample.postmortemsInput 0))
     = (FetchPostmortemsOutput_zero, Some (Errorf_w "list incidents" err))
   ∧ fst (@FetchIncidentActivity _ Sample.notFound tt Sample.incidentInput)
     = (FetchIncidentOutput_zero, Some (Errorf_w "get incident" err)))
  ∧ (snd (fst (@FetchIncidentsActivity _ Sample.storeDown tt (Sample.incidentsInput 0)))
     = Some (Errorf_w "store documents" (errorString "disk quota exceeded"))
     ∧ snd (fst (@FetchPostmortemsActivity _ Sample.storeDown tt (Sample.postmortemsInput 0)))
       = Some (Errorf_w "store documents" (errorString "disk quota exceeded"))).
Proof.
  intros resp err.
  assert (Hcode : Response_StatusCode resp ≠ 200) by (simpl; lia).
  split.
  - destruct (@non200_is_labelled_api_error Sample.platform Sample.notFound
                tt resp Hcode)
      as (_ & _ & _ & Hincidents & Hpostmortems & Hincident & Hlabel & _).
    destruct (Hlabel "list incidents") as (_ & _ & Hstatus & Hbody).
    split_and!.
    + exact Hstatus.
    + exact Hbody.
    + rewrite (Hincidents (Sample.incidentsInput 0)); [reflexivity |].
      split; reflexivity.
    + rewrite (Hpostmortems (Sample.postmortemsInput 0)); [reflexivity |].
      split; reflexivity.
    + rewrite (Hincident Sample.incidentInput); [reflexivity |].
      split; reflexivity.
  - destruct (@non200_is_labelled_api_error Sample.platform Sample.storeDown
                tt resp Hcode)
      as (_ & _ & _ & _ & _ & _ & _ & Hincidents & Hpostmortems).
    split.
    + erewrite (Hincidents (Sample.incidentsInput 0) Sample.listing);
        [reflexivity | vm_compute; reflexivity | reflexivity].
    + erewrite (Hpostmortems (Sample.postmortemsInput 0) Sample.listing);
        [reflexivity | vm_compute; reflexivity | reflexivity].
Defined.

(** The postmortem run on the sample listing stores the documents of the
    specification, those of the third and fourth incident. *)
Lemma FetchPostmortemsActivity_refines_spec_sample :
  let list := @ListIncidents _ Sample.up (clientFor "k") tt
                (Some "2024-01-01T00:00:00Z") None 100 in
  list = (inr Sample.listing, snd list)
  ∧ snd (@FetchPostmortemsActivity _ Sample.up tt (Sample.postmortemsInput 0))
    = snd list ++ map CallIncidentToDocument [Sample.inc3; Sample.inc4]
        ++ [CallStoreDocuments
              (map (λ incident, tagPostmortem (incidentToDocument incident))
                 [Sample.inc3; Sample.inc4])].
Proof.
  intros list.
  assert (Hlist : list = (inr Sample.listing, snd list))
    by (vm_compute; reflexivity).
  split; [exact Hlist |].
  destruct (@FetchPostmortemsActivity_refines_spec Sample.platform Sample.up
              tt (Sample.postmortemsInput 0) Sample.listing (snd list) Hlist)
    as (Htrace & _).
  exact Htrace.
Defined.

(** ** Worked examples *)

Example QueryEscape_sample :
  QueryEscape "2024-01-01T00:00:00+01:00 a~b"
  = "2024-01-01T00%3A00%3A00%2B01%3A00+a~b".
Proof. reflexivity. Qed.

Example ListIncidents_endpoint_sample :
  @ListIncidents_endpoint Sample.platform
    (Some "2024-01-01T00:00:00Z") (Some "2024-02-01T00:00:00Z") 0
  = "https://api.pagerduty.com/incidents?limit=25&since=2024-01-01T00%3A00%3A00Z&until=2024-02-01T00%3A00%3A00Z".
Proof. vm_compute. reflexivity. Qed.

Example GetIncident_endpoint_sample :
  GetIncident_endpoint "I3" = "https://api.pagerduty.com/incidents/I3".
Proof. reflexivity. Qed.

Example NewClient_sample :
  http_Client_Timeout (Client_httpClient (clientFor "k")) = 30000000000.
Proof. reflexivity. Qed.

Example incidentToDocument_sample :
  Document_Content (incidentToDocument Sample.inc1) = "disk full"
  ∧ Document_Content (incidentToDocument Sample.inc3)
    = "outage" +:+ String "010"%char (String "010"%char "db failover")
  ∧ Document_Metadata (incidentToDocument Sample.inc1) !! "priority" = None
  ∧ Document_Metadata (incidentToDocument Sample.inc3) !! "priority" = Some "P1"
  ∧ Document_Metadata (incidentToDocument Sample.inc3) !! "assignee" = Some "bo"
  ∧ Document_Source (incidentToDocument Sample.inc3) = "pagerduty".
Proof. vm_compute. repeat split. Qed.

Example apiError_sample :
  Error (Errorf_w "get incident" (apiError 404 "gone"))
  = "get incident: pagerduty API error: status=404 body=gone".
Proof. reflexivity. Qed.

(** * Further properties *)

(** ** The client: construction and headers *)

(** X1. A client built by [NewClient] keeps the API key of its
    configuration and never has the timeout zero, which [http.Client]
    reads as no timeout at all: an unset timeout becomes thirty seconds,
    any other value, negative ones included, is kept. *)
Theorem NewClient_timeout (cfg : ClientConfig) :
  let timeout := http_Client_Timeout (Client_httpClient (NewClient cfg)) in
  Client_apiKey (NewClient cfg) = ClientConfig_APIKey cfg
  ∧ timeout ≠ 0
  ∧ (ClientConfig_Timeout cfg = 0 → timeout = 30000000000)
  ∧ (ClientConfig_Timeout cfg ≠ 0 → timeout = ClientConfig_Timeout cfg).
Proof.
  unfold NewClient; cbn.
  destruct (decide (ClientConfig_Timeout cfg = 0)) as [Hzero | Hset].
  - split_and!; [reflexivity | discriminate | reflexivity | intros Hne; contradiction].
  - split_and!; [reflexivity | exact Hset | intros Hz; contradiction | reflexivity].
Qed.

Lemma NewClient_timeout_sample :
  http_Client_Timeout
    (Client_httpClient
       (NewClient {| ClientConfig_APIKey := "k"; ClientConfig_Timeout := 0 |}))
  = 30000000000
  ∧ http_Client_Timeout
      (Client_httpClient
         (NewClient {| ClientConfig_APIKey := "k"; ClientConfig_Timeout := -5 |}))
    = -5.
Proof.
  split.
  - apply (NewClient_timeout {| ClientConfig_APIKey := "k"; ClientConfig_Timeout := 0 |}).
    reflexivity.
  - apply (NewClient_timeout {| ClientConfig_APIKey := "k"; ClientConfig_Timeout := -5 |}).
    simpl. lia.
Defined.

Section ClientHeaders.
Context {P : Platform}.

(** X2. [setAuth] sets the token of the client and the two JSON headers,
    whatever the request carried under these keys before; it leaves every
    other header, the method, the URL and the context alone. Setting the
    headers twice is setting them once, and after two clients the token is
    the one of the second. *)
Theorem setAuth_headers (c c' : Client) (req : Request) :
  let req' := setAuth c req in
  Request_Header req' !! "Authorization" = Some ["Token token=" +:+ Client_apiKey c]
  ∧ Request_Header req' !! "Accept" = Some ["application/json"]
  ∧ Request_Header req' !! "Content-Type" = Some ["application/json"]
  ∧ (∀ key, key ∉ ["Authorization"; "Accept"; "Content-Type"] →
            Request_Header req' !! key = Request_Header req !! key)
  ∧ Request_Method req' = Request_Method req
  ∧ Request_URL req' = Request_URL req
  ∧ Request_ctx req' = Request_ctx req
  ∧ setAuth c req' = req'
  ∧ setAuth c' req' = setAuth c' req.
Proof.
  unfold setAuth, Header_Set; cbn. split_and!; try reflexivity.
  - by simplify_map_eq.
  - by simplify_map_eq.
  - by simplify_map_eq.
  - intros key Hkey.
    rewrite !lookup_insert_ne; [reflexivity | | |];
      intros <-; apply Hkey; set_solver.
  - f_equal. apply map_eq. intros key.
    destruct (decide (key = "Content-Type")) as [-> | ?]; [by simplify_map_eq |].
    destruct (decide (key = "Accept")) as [-> | ?]; [by simplify_map_eq |].
    destruct (decide (key = "Authorization")) as [-> | ?]; by simplify_map_eq.
  - f_equal. apply map_eq. intros key.
    destruct (decide (key = "Content-Type")) as [-> | ?]; [by simplify_map_eq |].
    destruct (decide (key = "Accept")) as [-> | ?]; [by simplify_map_eq |].
    destruct (decide (key = "Authorization")) as [-> | ?]; by simplify_map_eq.
Qed.

End ClientHeaders.

Lemma setAuth_headers_sample :
  let req : @Request Sample.platform :=
    {| Request_ctx := tt : @context_Context Sample.platform;
       Request_Method := "GET";
       Request_URL := "https://api.pagerduty.com/incidents/I3";
       Request_Header :=
         <["Authorization" := ["Token token=old"]]> (<["X-Trace" := ["7"]]> ∅) |} in
  Request_Header (setAuth (clientFor "k") req) !! "X-Trace" = Some ["7"]
  ∧ Request_Header (setAuth (clientFor "k") req) !! "Authorization"
    = Some ["Token token=k"].
Proof.
  intros req.
  destruct (@setAuth_headers Sample.platform (clientFor "k") (clientFor "k") req)
    as (Hauth & _ & _ & Hother & _).
  split; [| exact Hauth].
  rewrite Hother; [reflexivity |].
  intros Hin. repeat (apply elem_of_cons in Hin as [Hin | Hin]; [discriminate |]).
  by apply elem_of_nil in Hin.
Defined.

(** ** The client: every way a call ends *)

Section ClientOutcomes.
Context {P : Platform} {W : World}.

(** The run of the client once the request is built. *)
Lemma ListIncidents_built (c : Client) (ctx : context_Context)
    (since until : option Time) (limit : Z) :
  let url := ListIncidents_endpoint since until limit in
  http_NewRequest_check ctx "GET" url = None →
  ListIncidents c ctx since until limit
  = match http_Client_Do (Client_httpClient c) (requestFor c ctx url) with
    | inl e =>
        (inl (Errorf_w "execute request" e),
         [CallListIncidents since until limit; CallDo (requestFor c ctx url)])
    | inr resp =>
        if decide (Response_StatusCode resp ≠ 200) then
          (inl (apiError (Response_StatusCode resp) (Body_data (Response_Body resp))),
           [CallListIncidents since until limit; CallDo (requestFor c ctx url);
            CallReadAll (Response_Body resp)])
        else
          (match json_Decode_IncidentListResponse (Response_Body resp) with
           | inl e => inl (Errorf_w "decode response" e)
           | inr result => inr result
           end,
           [CallListIncidents since until limit; CallDo (requestFor c ctx url);
            CallDecode (Response_Body resp)])
    end.
Proof.
  intros url Hcheck. subst url.
  unfold ListIncidents, http_NewRequestWithContext, call. rewrite Hcheck.
  fold (requestFor c ctx (ListIncidents_endpoint since until limit)).
  unfold Do, call, ret. rewrite !bind_pair. cbn [fst snd].
  destruct (http_Client_Do _ _) as [e | resp]; [reflexivity |].
  destruct (decide (Response_StatusCode resp ≠ 200)).
  - unfold io_ReadAll, call, ret. now rewrite !bind_pair.
  - unfold Decode_IncidentListResponse, call, ret. rewrite !bind_pair.
    cbn [fst snd]. now destruct (json_Decode_IncidentListResponse _).
Qed.

Lemma ListIncidents_unbuilt (c : Client) (ctx : context_Context)
    (since until : option Time) (limit : Z) (e : error) :
  http_NewRequest_check ctx "GET" (ListIncidents_endpoint since until limit) = Some e →
  ListIncidents c ctx since until limit
  = (inl (Errorf_w "create request" e), [CallListIncidents since until limit]).
Proof.
  intros Hcheck.
  unfold ListIncidents, http_NewRequestWithContext, call. rewrite Hcheck.
  unfold ret. now rewrite bind_pair.
Qed.

Lemma GetIncident_built (c : Client) (ctx : context_Context) (incidentID : string) :
  let url := GetIncident_endpoint incidentID in
  http_NewRequest_check ctx "GET" url = None →
  GetIncident c ctx incidentID
  = match http_Client_Do (Client_httpClient c) (requestFor c ctx url) with
    | inl e =>
        (inl (Errorf_w "execute request" e),
         [CallGetIncident incidentID; CallDo (requestFor c ctx url)])
    | inr resp =>
        if decide (Response_StatusCode resp ≠ 200) then
          (inl (apiError (Response_StatusCode resp) (Body_data (Response_Body resp))),
           [CallGetIncident incidentID; CallDo (requestFor c ctx url);
            CallReadAll (Response_Body resp)])
        else
          (match json_Decode_Incident (Response_Body resp) with
           | inl e => inl (Errorf_w "decode response" e)
           | inr incident => inr incident
           end,
           [CallGetIncident incidentID; CallDo (requestFor c ctx url);
            CallDecode (Response_Body resp)])
    end.
Proof.
  intros url Hcheck. subst url.
  unfold GetIncident, http_NewRequestWithContext, call. rewrite Hcheck.
  fold (requestFor c ctx (GetIncident_endpoint incidentID)).
  unfold Do, call, ret. rewrite !bind_pair. cbn [fst snd].
  destruct (http_Client_Do _ _) as [e | resp]; [reflexivity |].
  destruct (decide (Response_StatusCode resp ≠ 200)).
  - unfold io_ReadAll, call, ret. now rewrite !bind_pair.
  - unfold Decode_Incident, call, ret. rewrite !bind_pair.
    cbn [fst snd]. now destruct (json_Decode_Incident _).
Qed.

Lemma GetIncident_unbuilt (c : Client) (ctx : context_Context)
    (incidentID : string) (e : error) :
  http_NewRequest_check ctx "GET" (GetIncident_endpoint incidentID) = Some e →
  GetIncident c ctx incidentID
  = (inl (Errorf_w "create request" e), [CallGetIncident incidentID]).
Proof.
  intros Hcheck.
  unfold GetIncident, http_NewRequestWithContext, call. rewrite Hcheck.
  unfold ret. now rewrite bind_pair.
Qed.

(** X3. [ListIncidents] ends in one of these ways besides the response
    other than 200. A request that cannot be built is never sent and
    comes back behind [create request]; a transport failure comes back
    behind [execute request] and nothing is read or decoded; a 200 whose
    body does not decode comes back behind [decode response]; a 200 whose
    body decodes gives the decoded response as it is, after one request
    and one decoding and no read of the body by [io.ReadAll]. *)
Theorem ListIncidents_outcomes (c : Client) (ctx : context_Context)
    (since until : option Time) (limit : Z) :
  let url := ListIncidents_endpoint since until limit in
  let req := requestFor c ctx url in
  let called := CallListIncidents since until limit in
  (∀ e, http_NewRequest_check ctx "GET" url = Some e →
        ListIncidents c ctx since until limit
        = (inl (Errorf_w "create request" e), [called]))
  ∧ (∀ e, http_NewRequest_check ctx "GET" url = None →
          http_Client_Do (Client_httpClient c) req = inl e →
          ListIncidents c ctx since until limit
          = (inl (Errorf_w "execute request" e), [called; CallDo req]))
  ∧ (∀ resp e, answers c ctx url resp →
               Response_StatusCode resp = 200 →
               json_Decode_IncidentListResponse (Response_Body resp) = inl e →
               ListIncidents c ctx since until limit
               = (inl (Errorf_w "decode response" e),
                  [called; CallDo req; CallDecode (Response_Body resp)]))
  ∧ (∀ resp result, answers c ctx url resp →
                    Response_StatusCode resp = 200 →
                    json_Decode_IncidentListResponse (Response_Body resp) = inr result →
                    ListIncidents c ctx since until limit
                    = (inr result,
                       [called; CallDo req; CallDecode (Response_Body resp)])).
Proof.
  intros url req called. subst url req called. split_and!.
  - intros e Hcheck. now apply ListIncidents_unbuilt.
  - intros e Hcheck Hdo. rewrite ListIncidents_built by exact Hcheck.
    cbn zeta. now rewrite Hdo.
  - intros resp e [Hcheck Hdo] Hcode Hdecode.
    rewrite ListIncidents_built by exact Hcheck. cbn zeta. rewrite Hdo.
    rewrite decide_False by (intros Hne; now apply Hne). now rewrite Hdecode.
  - intros resp result [Hcheck Hdo] Hcode Hdecode.
    rewrite ListIncidents_built by exact Hcheck. cbn zeta. rewrite Hdo.
    rewrite decide_False by (intros Hne; now apply Hne). now rewrite Hdecode.
Qed.


(** X5. An error of the client is of one of four kinds, and its kind tells
    how far the call went: [create request] (nothing was sent),
    [execute request] (the transport failed), the API error of a status
    other than 200, or [decode response] (a 200 that did not decode). *)
Theorem client_error_kinds (c : Client) (ctx : context_Context)
    (since until : option Time) (limit : Z) (incidentID : string) (err : error) :
  fst (ListIncidents c ctx since until limit) = inl err
  ∨ fst (GetIncident c ctx incidentID) = inl err →
  (∃ e, err = Errorf_w "create request" e)
  ∨ (∃ e, err = Errorf_w "execute request" e)
  ∨ (∃ code body, code ≠ 200 ∧ err = apiError code body)
  ∨ (∃ e, err = Errorf_w "decode response" e).
Proof.
  intros [Herr | Herr].
  - destruct (http_NewRequest_check ctx "GET" (ListIncidents_endpoint since until limit))
      as [e |] eqn:Hcheck.
    + rewrite (ListIncidents_unbuilt _ _ _ _ _ _ Hcheck) in Herr.
      injection Herr as <-. left. now exists e.
    + rewrite (ListIncidents_built _ _ _ _ _ Hcheck) in Herr.
      destruct (http_Client_Do _ _) as [e | resp].
      { injection Herr as <-. right; left. now exists e. }
      destruct (decide (Response_StatusCode resp ≠ 200)) as [Hcode | Hcode].
      { injection Herr as <-. right; right; left. eauto. }
      cbn [fst] in Herr.
      destruct (json_Decode_IncidentListResponse _) as [e | result];
        [| discriminate].
      injection Herr as <-. right; right; right. now exists e.
  - destruct (http_NewRequest_check ctx "GET" (GetIncident_endpoint incidentID))
      as [e |] eqn:Hcheck.
    + rewrite (GetIncident_unbuilt _ _ _ _ Hcheck) in Herr.
      injection Herr as <-. left. now exists e.
    + rewrite (GetIncident_built _ _ _ Hcheck) in Herr.
      destruct (http_Client_Do _ _) as [e | resp].
      { injection Herr as <-. right; left. now exists e. }
      destruct (decide (Response_StatusCode resp ≠ 200)) as [Hcode | Hcode].
      { injection Herr as <-. right; right; left. eauto. }
      cbn [fst] in Herr.
      destruct (json_Decode_Incident _) as [e | incident]; [| discriminate].
      injection Herr as <-. right; right; right. now exists e.
Qed.

End ClientOutcomes.

Lemma ListIncidents_outcomes_sample :
  let c := clientFor "k" in
  fst (@ListIncidents _ Outage.unbuildable c tt None None 10)
  = inl (Errorf_w "create request" Outage.badURL)
  ∧ fst (@ListIncidents _ Outage.unreachable c tt None None 10)
    = inl (Errorf_w "execute request" Outage.timeout)
  ∧ fst (@ListIncidents _ Outage.garbled c tt None None 10)
    = inl (Errorf_w "decode response" Outage.badJSON)
  ∧ fst (@ListIncidents _ Sample.up c tt None None 10) = inr Sample.listing.
Proof.
  intros c. split_and!.
  - destruct (@ListIncidents_outcomes _ Outage.unbuildable c tt None None 10)
      as (Hcreate & _).
    now rewrite (Hcreate Outage.badURL eq_refl).
  - destruct (@ListIncidents_outcomes _ Outage.unreachable c tt None None 10)
      as (_ & Hexecute & _).
    now rewrite (Hexecute Outage.timeout eq_refl eq_refl).
  - destruct (@ListIncidents_outcomes _ Outage.garbled c tt None None 10)
      as (_ & _ & Hdecode & _).
    erewrite Hdecode; [reflexivity | split; reflexivity | reflexivity | reflexivity].
  - destruct (@ListIncidents_outcomes _ Sample.up c tt None None 10)
      as (_ & _ & _ & Hok).
    erewrite Hok; [reflexivity | split; reflexivity | reflexivity | reflexivity].
Defined.


Lemma client_error_kinds_sample :
  let err := apiError 404 Sample.notFoundBody in
  (∃ e, err = Errorf_w "create request" e)
  ∨ (∃ e, err = Errorf_w "execute request" e)
  ∨ (∃ code body, code ≠ 200 ∧ err = apiError code body)
  ∨ (∃ e, err = Errorf_w "decode response" e).
Proof.
  intros err.
  apply (@client_error_kinds _ Sample.notFound (clientFor "k") tt None None 10 "I3" err).
  left. reflexivity.
Defined.

(** ** The activities: what a run sends, maps and stores *)

Section ActivityTraces.
Context {P : Platform} {W : World}.

Lemma calls_of_mapper (incidents : list Incident) :
  doCalls (map CallIncidentToDocument incidents) = []
  ∧ storeCalls (map CallIncidentToDocument incidents) = []
  ∧ mapperCalls (map CallIncidentToDocument incidents) = incidents.
Proof.
  induction incidents as [|incident rest (IHdo & IHstore & IHmap)];
    [now split_and! |].
  split_and!; [exact IHdo | exact IHstore |].
  change (incident :: mapperCalls (map CallIncidentToDocument rest) = incident :: rest).
  now rewrite IHmap.
Qed.

(** What the client records: at most one request, the one for its
    endpoint, no mapping and no storing. *)
Lemma ListIncidents_calls (c : Client) (ctx : context_Context)
    (since until : option Time) (limit : Z) :
  let url := ListIncidents_endpoint since until limit in
  let tr := snd (ListIncidents c ctx since until limit) in
  doCalls tr = match http_NewRequest_check ctx "GET" url with
               | None => [requestFor c ctx url]
               | Some _ => []
               end
  ∧ storeCalls tr = [] ∧ mapperCalls tr = []
  ∧ (length (decodeCalls tr) ≤ 1)%nat.
Proof.
  intros url tr. subst url tr.
  destruct (http_NewRequest_check ctx "GET" _) as [e |] eqn:Hcheck.
  - rewrite (ListIncidents_unbuilt _ _ _ _ _ _ Hcheck). cbn. split_and!; auto.
  - rewrite (ListIncidents_built _ _ _ _ _ Hcheck).
    destruct (http_Client_Do _ _) as [e | resp]; [cbn; split_and!; auto |].
    destruct (decide (Response_StatusCode resp ≠ 200)); cbn; split_and!; auto.
Qed.

Lemma GetIncident_calls (c : Client) (ctx : context_Context) (incidentID : string) :
  let url := GetIncident_endpoint incidentID in
  let tr := snd (GetIncident c ctx incidentID) in
  doCalls tr = match http_NewRequest_check ctx "GET" url with
               | None => [requestFor c ctx url]
               | Some _ => []
               end
  ∧ storeCalls tr = [] ∧ mapperCalls tr = []
  ∧ (length (decodeCalls tr) ≤ 1)%nat.
Proof.
  intros url tr. subst url tr.
  destruct (http_NewRequest_check ctx "GET" _) as [e |] eqn:Hcheck.
  - rewrite (GetIncident_unbuilt _ _ _ _ Hcheck). cbn. split_and!; auto.
  - rewrite (GetIncident_built _ _ _ Hcheck).
    destruct (http_Client_Do _ _) as [e | resp]; [cbn; split_and!; auto |].
    destruct (decide (Response_StatusCode resp ≠ 200)); cbn; split_and!; auto.
Qed.



(** The calls of a run that got its list: those of the client, then the
    mapped incidents, then one stored batch. *)
Lemma calls_after_list (tr0 : list Event) (incidents : list Incident)
    (docs : list Document) :
  let tr := tr0 ++ map CallIncidentToDocument incidents ++ [CallStoreDocuments docs] in
  doCalls tr = doCalls tr0
  ∧ storeCalls tr = storeCalls tr0 ++ [docs]
  ∧ mapperCalls tr = mapperCalls tr0 ++ incidents.
Proof.
  destruct (calls_of_mapper incidents) as (Hdo & Hstore & Hmap).
  cbn zeta. unfold doCalls, storeCalls, mapperCalls in *.
  rewrite !omap_app, Hdo, Hstore, Hmap. cbn.
  now rewrite !app_nil_r.
Qed.





(** X7. A run of [FetchIncidentsActivity] or [FetchPostmortemsActivity]
    either fails before it maps or stores anything, or stores exactly one
    batch: the documents of the incidents it mapped, in the order it
    mapped them (with the postmortem tag on each in the postmortem run,
    where only resolved incidents are mapped). [FetchIncidentActivity]
    never stores; it maps at most one incident, the one whose document it
    returns. *)
Theorem stored_batch_is_what_was_mapped (ctx : context_Context)
    (incidentsInput : FetchIncidentsInput)
    (incidentInput : FetchIncidentInput)
    (postmortemsInput : FetchPostmortemsInput) :
  let run1 := FetchIncidentsActivity ctx incidentsInput in
  let run2 := FetchIncidentActivity ctx incidentInput in
  let run3 := FetchPostmortemsActivity ctx postmortemsInput in
  ((snd (fst run1) ≠ None ∧ mapperCalls (snd run1) = [] ∧ storeCalls (snd run1) = [])
   ∨ storeCalls (snd run1) = [map incidentToDocument (mapperCalls (snd run1))])
  ∧ (storeCalls (snd run2) = []
     ∧ ((snd (fst run2) ≠ None ∧ mapperCalls (snd run2) = [])
        ∨ ∃ incident,
            mapperCalls (snd run2) = [incident]
            ∧ fst run2
              = ({| FetchIncidentOutput_Document := incidentToDocument incident;
                    FetchIncidentOutput_Found := true |}, None)))
  ∧ ((snd (fst run3) ≠ None ∧ mapperCalls (snd run3) = [] ∧ storeCalls (snd run3) = [])
     ∨ (storeCalls (snd run3)
        = [map (λ incident, tagPostmortem (incidentToDocument incident))
             (mapperCalls (snd run3))]
        ∧ Forall (λ incident, Incident_Status incident = "resolved")
            (mapperCalls (snd run3)))).
Proof.
  cbn zeta. split; [| split].
  - rewrite FetchIncidentsActivity_unfold.
    pose proof (ListIncidents_calls (clientFor (FetchIncidentsInput_APIKey incidentsInput))
                  ctx (FetchIncidentsInput_Since incidentsInput)
                  (FetchIncidentsInput_Until incidentsInput)
                  (activityLimit (FetchIncidentsInput_Limit incidentsInput)))
      as (_ & Hstore & Hmap & _).
    cbn zeta in Hstore, Hmap.
    destruct (ListIncidents _ _ _ _ _) as [[err | result] tr0]; cbn [fst snd] in *.
    + left. by split_and!.
    + right.
      destruct (calls_after_list tr0 (IncidentListResponse_Incidents result)
                  (map incidentToDocument (IncidentListResponse_Incidents result)))
        as (_ & -> & ->).
      now rewrite Hstore, Hmap.
  - rewrite FetchIncidentActivity_unfold.
    pose proof (GetIncident_calls (clientFor (FetchIncidentInput_APIKey incidentInput))
                  ctx (FetchIncidentInput_IncidentID incidentInput))
      as (_ & Hstore & Hmap & _).
    cbn zeta in Hstore, Hmap.
    destruct (GetIncident _ _ _) as [[err | incident] tr0]; cbn [fst snd] in *.
    + split; [exact Hstore |]. left. by split.
    + unfold storeCalls, mapperCalls in *. rewrite !omap_app, Hstore, Hmap.
      split; [reflexivity |]. right. now exists incident.
  - rewrite FetchPostmortemsActivity_unfold.
    pose proof (ListIncidents_calls (clientFor (FetchPostmortemsInput_APIKey postmortemsInput))
                  ctx (FetchPostmortemsInput_Since postmortemsInput) None
                  (activityLimit (FetchPostmortemsInput_Limit postmortemsInput)))
      as (_ & Hstore & Hmap & _).
    cbn zeta in Hstore, Hmap.
    destruct (ListIncidents _ _ _ _ _) as [[err | result] tr0]; cbn [fst snd] in *.
    + left. by split_and!.
    + right.
      destruct (calls_after_list tr0 (resolved (IncidentListResponse_Incidents result))
                  (postmortemDocuments_spec (IncidentListResponse_Incidents result)))
        as (_ & -> & ->).
      rewrite Hstore, Hmap. split; [reflexivity |].
      cbn [app]. unfold resolved. apply Forall_forall.
      intros incident Hin. now apply list_elem_of_filter in Hin as [Hres _].
Qed.


(** X9. The labels nest: when the client fails behind one of its own
    labels, the message of the activity is the label of the activity, the
    label of the client and the message of the first cause, separated by
    colons, and unwrapping twice gives the first cause. *)
Theorem error_labels_nest (ctx : context_Context)
    (incidentsInput : FetchIncidentsInput)
    (incidentInput : FetchIncidentInput)
    (postmortemsInput : FetchPostmortemsInput)
    (kind : string) (cause : error) :
  let nested (label : string) (err : option error) : Prop :=
    ∃ e, err = Some e
         ∧ Error e = label +:+ ": " +:+ kind +:+ ": " +:+ Error cause
         ∧ Unwrap e ≫= Unwrap = Some cause in
  (fst (ListIncidents (clientFor (FetchIncidentsInput_APIKey incidentsInput)) ctx
          (FetchIncidentsInput_Since incidentsInput)
          (FetchIncidentsInput_Until incidentsInput)
          (activityLimit (FetchIncidentsInput_Limit incidentsInput)))
   = inl (Errorf_w kind cause) →
   nested "list incidents" (snd (fst (FetchIncidentsActivity ctx incidentsInput))))
  ∧ (fst (GetIncident (clientFor (FetchIncidentInput_APIKey incidentInput)) ctx
            (FetchIncidentInput_IncidentID incidentInput))
     = inl (Errorf_w kind cause) →
     nested "get incident" (snd (fst (FetchIncidentActivity ctx incidentInput))))
  ∧ (fst (ListIncidents (clientFor (FetchPostmortemsInput_APIKey postmortemsInput)) ctx
            (FetchPostmortemsInput_Since postmortemsInput) None
            (activityLimit (FetchPostmortemsInput_Limit postmortemsInput)))
     = inl (Errorf_w kind cause) →
     nested "list incidents" (snd (fst (FetchPostmortemsActivity ctx postmortemsInput)))).
Proof.
  cbn zeta. split; [| split].
  - rewrite FetchIncidentsActivity_unfold.
    destruct (ListIncidents _ _ _ _ _) as [r tr0]. cbn [fst]. intros ->.
    eexists. split; [reflexivity |]. split; reflexivity.
  - rewrite FetchIncidentActivity_unfold.
    destruct (GetIncident _ _ _) as [r tr0]. cbn [fst]. intros ->.
    eexists. split; [reflexivity |]. split; reflexivity.
  - rewrite FetchPostmortemsActivity_unfold.
    destruct (ListIncidents _ _ _ _ _) as [r tr0]. cbn [fst]. intros ->.
    eexists. split; [reflexivity |]. split; reflexivity.
Qed.

(** X10. A run of [FetchPostmortemsActivity] succeeds exactly when the list
    step and the store step succeed; then [Ref] is the handle the store
    returned and [Count] is the number of resolved incidents of the
    response, which lies between zero and the number of incidents. *)
Theorem FetchPostmortemsActivity_success (ctx : context_Context)
    (input : FetchPostmortemsInput) (out : FetchPostmortemsOutput)
    (tr : list Event) :
  FetchPostmortemsActivity ctx input = ((out, None), tr)
  ↔ ∃ result ref tr0,
      let incidents := IncidentListResponse_Incidents result in
      let docs := map (λ incident, tagPostmortem (incidentToDocument incident))
                    (resolved incidents) in
      ListIncidents (clientFor (FetchPostmortemsInput_APIKey input)) ctx
        (FetchPostmortemsInput_Since input) None
        (activityLimit (FetchPostmortemsInput_Limit input))
      = (inr result, tr0)
      ∧ transform_StoreDocuments ctx docs = inr ref
      ∧ tr = tr0 ++ map CallIncidentToDocument (resolved incidents)
                 ++ [CallStoreDocuments docs]
      ∧ FetchPostmortemsOutput_Ref out = ref
      ∧ FetchPostmortemsOutput_Count out = len (resolved incidents)
      ∧ 0 ≤ FetchPostmortemsOutput_Count out ≤ len incidents.
Proof.
  rewrite FetchPostmortemsActivity_unfold.
  destruct (ListIncidents _ _ _ _ _) as [[err | result] tr0].
  - split; [discriminate |]. intros (result & ref & tr1 & Hlist & _).
    discriminate.
  - cbn zeta.
    change (postmortemDocuments_spec (IncidentListResponse_Incidents result))
      with (map (λ incident, tagPostmortem (incidentToDocument incident))
              (resolved (IncidentListResponse_Incidents result))).
    set (incidents := IncidentListResponse_Incidents result).
    assert (Hcount : len (map (λ incident, tagPostmortem (incidentToDocument incident))
                            (resolved incidents)) = len (resolved incidents))
      by (unfold len; now rewrite length_map).
    assert (Hbound : 0 ≤ len (resolved incidents) ≤ len incidents).
    { unfold len, resolved. pose proof (length_filter
        (λ incident : Incident, Incident_Status incident = "resolved") incidents).
      lia. }
    split.
    + destruct (transform_StoreDocuments _ _) as [err | ref] eqn:Hstore;
        [discriminate |].
      intros Hrun. injection Hrun as <- <-.
      exists result, ref, tr0. cbn zeta. fold incidents.
      cbn [FetchPostmortemsOutput_Ref FetchPostmortemsOutput_Count].
      rewrite Hcount. split_and!; try reflexivity; try apply Hbound.
      exact Hstore.
    + intros (result' & ref & tr1 & Hlist & Hstore & -> & Href & Hcnt & _).
      injection Hlist as <- <-. fold incidents in Hstore. rewrite Hstore.
      destruct out as [oref ocount].
      cbn [FetchPostmortemsOutput_Ref FetchPostmortemsOutput_Count] in *. subst.
      fold incidents. now rewrite Hcount.
Qed.

(** X11. An empty result is stored all the same: with no incident in the
    response, or none that is resolved in the postmortem run, the store is
    called once with the empty batch; when it accepts it the run succeeds
    with the count zero (and the total the server reported), and when it
    refuses it the run fails. *)
Theorem empty_batch_is_stored (ctx : context_Context)
    (incidentsInput : FetchIncidentsInput)
    (postmortemsInput : FetchPostmortemsInput)
    (result : IncidentListResponse) (tr0 : list Event) :
  (ListIncidents (clientFor (FetchIncidentsInput_APIKey incidentsInput)) ctx
     (FetchIncidentsInput_Since incidentsInput)
     (FetchIncidentsInput_Until incidentsInput)
     (activityLimit (FetchIncidentsInput_Limit incidentsInput))
   = (inr result, tr0) →
   IncidentListResponse_Incidents result = [] →
   snd (FetchIncidentsActivity ctx incidentsInput) = tr0 ++ [CallStoreDocuments []]
   ∧ fst (FetchIncidentsActivity ctx incidentsInput)
     = match transform_StoreDocuments ctx [] with
       | inl e => (FetchIncidentsOutput_zero, Some (Errorf_w "store documents" e))
       | inr ref =>
           ({| FetchIncidentsOutput_Ref := ref;
               FetchIncidentsOutput_Count := 0;
               FetchIncidentsOutput_Total := IncidentListResponse_Total result |},
            None)
       end)
  ∧ (ListIncidents (clientFor (FetchPostmortemsInput_APIKey postmortemsInput)) ctx
       (FetchPostmortemsInput_Since postmortemsInput) None
       (activityLimit (FetchPostmortemsInput_Limit postmortemsInput))
     = (inr result, tr0) →
     Forall (λ incident, Incident_Status incident ≠ "resolved")
       (IncidentListResponse_Incidents result) →
     snd (FetchPostmortemsActivity ctx postmortemsInput)
     = tr0 ++ [CallStoreDocuments []]
     ∧ fst (FetchPostmortemsActivity ctx postmortemsInput)
       = match transform_StoreDocuments ctx [] with
         | inl e => (FetchPostmortemsOutput_zero, Some (Errorf_w "store documents" e))
         | inr ref =>
             ({| FetchPostmortemsOutput_Ref := ref;
                 FetchPostmortemsOutput_Count := 0 |},
              None)
         end).
Proof.
  split.
  - intros Hlist Hempty.
    rewrite FetchIncidentsActivity_unfold, Hlist. cbn zeta. rewrite Hempty.
    cbn [map app fst snd]. split; [reflexivity |].
    now destruct (transform_StoreDocuments ctx []).
  - intros Hlist Hnone.
    assert (Hres : resolved (IncidentListResponse_Incidents result) = []).
    { unfold resolved.
      induction Hnone as [|incident rest Hne _ IH]; [reflexivity |].
      now rewrite filter_cons_False by exact Hne. }
    rewrite FetchPostmortemsActivity_unfold, Hlist. cbn zeta.
    unfold postmortemDocuments_spec. rewrite Hres.
    cbn [map app fst snd]. split; [reflexivity |].
    now destruct (transform_StoreDocuments ctx []).
Qed.

End ActivityTraces.


Lemma error_labels_nest_sample :
  ∃ e,
    snd (fst (@FetchIncidentsActivity _ Outage.unreachable tt (Sample.incidentsInput 0)))
    = Some e
    ∧ Error e = "list incidents: execute request: context deadline exceeded"
    ∧ Unwrap e ≫= Unwrap = Some Outage.timeout.
Proof.
  destruct (@error_labels_nest _ Outage.unreachable tt
              (Sample.incidentsInput 0) Sample.incidentInput
              (Sample.postmortemsInput 0) "execute request" Outage.timeout)
    as (Hincidents & _).
  apply Hincidents. reflexivity.
Defined.

Lemma FetchPostmortemsActivity_success_sample :
  let outcome := @FetchPostmortemsActivity _ Sample.up tt (Sample.postmortemsInput 0) in
  snd (fst outcome) = None
  ∧ ∃ result : @IncidentListResponse Sample.platform,
      FetchPostmortemsOutput_Count (fst (fst outcome))
      = len (resolved (IncidentListResponse_Incidents result))
      ∧ 0 ≤ FetchPostmortemsOutput_Count (fst (fst outcome))
          ≤ len (IncidentListResponse_Incidents result).
Proof.
  intros outcome.
  assert (Hrun : outcome = ((fst (fst outcome), None), snd outcome))
    by (vm_compute; reflexivity).
  split; [now rewrite Hrun |].
  destruct (proj1 (@FetchPostmortemsActivity_success Sample.platform Sample.up
                     tt (Sample.postmortemsInput 0) (fst (fst outcome)) (snd outcome))
              Hrun)
    as (result & ref & tr0 & _ & _ & _ & _ & Hcount & Hbound).
  exists result. split; assumption.
Defined.

Lemma empty_batch_is_stored_sample :
  fst (@FetchIncidentsActivity _ Outage.quiet tt (Sample.incidentsInput 0))
  = ({| FetchIncidentsOutput_Ref := "ref-0" : @DataRef Sample.platform;
        FetchIncidentsOutput_Count := 0;
        FetchIncidentsOutput_Total := 0 |}, None)
  ∧ fst (@FetchPostmortemsActivity _ Outage.quiet tt (Sample.postmortemsInput 0))
    = ({| FetchPostmortemsOutput_Ref := "ref-0" : @DataRef Sample.platform;
          FetchPostmortemsOutput_Count := 0 |}, None).
Proof.
  pose (list1 := @ListIncidents _ Outage.quiet (clientFor "k") tt
                   None (Some "2024-02-01T00:00:00Z") 100).
  pose (list3 := @ListIncidents _ Outage.quiet (clientFor "k") tt
                   (Some "2024-01-01T00:00:00Z") None 100).
  assert (Hlist1 : list1 = (inr Outage.emptyListing, snd list1))
    by (vm_compute; reflexivity).
  assert (Hlist3 : list3 = (inr Outage.emptyListing, snd list3))
    by (vm_compute; reflexivity).
  split.
  - destruct (@empty_batch_is_stored _ Outage.quiet tt (Sample.incidentsInput 0)
                (Sample.postmortemsInput 0) Outage.emptyListing (snd list1))
      as (Hincidents & _).
    destruct (Hincidents Hlist1 eq_refl) as (_ & ->). reflexivity.
  - destruct (@empty_batch_is_stored _ Outage.quiet tt (Sample.incidentsInput 0)
                (Sample.postmortemsInput 0) Outage.emptyListing (snd list3))
      as (_ & Hpostmortems).
    destruct (Hpostmortems Hlist3 (List.Forall_nil _)) as (_ & ->). reflexivity.
Defined.

(** ** The mapper: what a document keeps of an incident *)

Section MapperFacts.
Context {P : Platform}.

Lemma mapper_Content (incident : Incident) :
  Document_Content (incidentToDocument incident)
  = Incident_Summary incident
      +:+ (if decide (Incident_Description incident = "") then ""
           else String "010"%char (String "010"%char (Incident_Description incident))).
Proof.
  unfold incidentToDocument; cbn [Document_Content].
  destruct (decide (Incident_Description incident = "")) as [Heq | Hne].
  - rewrite decide_False by (intros Hn; now apply Hn).
    cbn. now rewrite string_app_nil_r.
  - rewrite decide_True by assumption. reflexivity.
Qed.

Lemma mapper_Metadata (incident : Incident) :
  let metadata := Document_Metadata (incidentToDocument incident) in
  metadata !! "incident_id" = Some (Incident_ID incident)
  ∧ metadata !! "status" = Some (Incident_Status incident)
  ∧ metadata !! "urgency" = Some (Incident_Urgency incident)
  ∧ metadata !! "service" = Some (Service_Name (Incident_Service incident))
  ∧ metadata !! "priority" = Priority_Name <$> Incident_Priority incident
  ∧ metadata !! "assignee"
    = (λ a, Assignee_Name (Assignment_Assignee a))
        <$> head (Incident_Assignments incident)
  ∧ metadata !! "document_type" = None.
Proof.
  unfold incidentToDocument; cbn [Document_Metadata].
  destruct (Incident_Priority incident), (Incident_Assignments incident);
    cbn; split_and!; by simplify_map_eq.
Qed.

Lemma mapper_Metadata_size (incident : Incident) :
  size (Document_Metadata (incidentToDocument incident))
  = (4 + (if Incident_Priority incident is Some _ then 1 else 0)
       + (if Incident_Assignments incident is _ :: _ then 1 else 0))%nat.
Proof.
  unfold incidentToDocument; cbn [Document_Metadata].
  destruct (Incident_Priority incident), (Incident_Assignments incident); cbn;
    repeat (rewrite map_size_insert_None by by simplify_map_eq);
    now rewrite map_size_empty.
Qed.

Lemma mapper_by_view (i1 i2 : Incident) :
  mappedView i1 = mappedView i2 → incidentToDocument i1 = incidentToDocument i2.
Proof.
  unfold mappedView. intros Hview.
  injection Hview as Hid Hsum Hdesc Hstatus Hurg Hprio Hsvc Hassignee Hurl Hupd.
  unfold incidentToDocument.
  rewrite Hid, Hsum, Hdesc, Hstatus, Hurg, Hsvc, Hurl, Hupd.
  f_equal. revert Hprio Hassignee.
  destruct (Incident_Priority i1) as [p1 |], (Incident_Priority i2) as [p2 |];
    destruct (Incident_Assignments i1) as [| a1 r1],
             (Incident_Assignments i2) as [| a2 r2];
    cbn; intros Hprio Hassignee; try discriminate; congruence.
Qed.

Lemma view_by_mapper (i1 i2 : Incident) :
  incidentToDocument i1 = incidentToDocument i2 → mappedView i1 = mappedView i2.
Proof.
  intros Hdoc.
  assert (Hid : Incident_ID i1 = Incident_ID i2)
    by exact (f_equal Document_ID Hdoc).
  assert (Hsum : Incident_Summary i1 = Incident_Summary i2)
    by exact (f_equal Document_Title Hdoc).
  assert (Hurl : Incident_HTMLURL i1 = Incident_HTMLURL i2)
    by exact (f_equal Document_URL Hdoc).
  assert (Hupd : Incident_UpdatedAt i1 = Incident_UpdatedAt i2)
    by exact (f_equal Document_UpdatedAt Hdoc).
  pose proof (f_equal Document_Content Hdoc) as Hcontent.
  rewrite !mapper_Content, Hsum in Hcontent.
  apply String.app_inj in Hcontent.
  assert (Hdesc : Incident_Description i1 = Incident_Description i2).
  { destruct (decide (Incident_Description i1 = "")) as [H1 | H1],
             (decide (Incident_Description i2 = "")) as [H2 | H2];
      try discriminate; congruence. }
  pose proof (f_equal Document_Metadata Hdoc) as Hmeta.
  destruct (mapper_Metadata i1) as (_ & Hs1 & Hu1 & Hv1 & Hp1 & Ha1 & _).
  destruct (mapper_Metadata i2) as (_ & Hs2 & Hu2 & Hv2 & Hp2 & Ha2 & _).
  cbn zeta in *. rewrite Hmeta in Hs1, Hu1, Hv1, Hp1, Ha1.
  assert (Hstatus : Incident_Status i1 = Incident_Status i2) by congruence.
  assert (Hurgency : Incident_Urgency i1 = Incident_Urgency i2) by congruence.
  assert (Hservice : Service_Name (Incident_Service i1)
                     = Service_Name (Incident_Service i2)) by congruence.
  unfold mappedView.
  rewrite Hid, Hsum, Hdesc, Hurl, Hupd, Hstatus, Hurgency, Hservice.
  now rewrite <- Hp1, <- Ha1, Hp2, Ha2.
Qed.

(** X12. Two incidents are mapped to the same document exactly when they
    agree on the identifier, the summary, the description, the status, the
    urgency, the name of the priority (or its absence), the name of the
    service, the name of the first assignee (or the absence of
    assignments), the web URL and the update time. The document keeps all
    of these and nothing else: the type, the creation and resolution
    times, the escalation policy, the identifiers and summaries of
    priority, service and assignee and every assignment after the first
    are dropped. *)
Theorem incidentToDocument_keeps_the_view (i1 i2 : Incident) :
  incidentToDocument i1 = incidentToDocument i2 ↔ mappedView i1 = mappedView i2.
Proof. split; [apply view_by_mapper | apply mapper_by_view]. Qed.

(** X13. A mapped document is consistent in itself: the content starts
    with the title, and is the title exactly when the incident has no
    description; the metadata entry [incident_id] is the identifier of the
    document; the source is [pagerduty]; the metadata has four entries,
    one more with a priority and one more with an assignment, so between
    four and six. *)
Theorem incidentToDocument_consistent (incident : Incident) :
  let doc := incidentToDocument incident in
  (∃ rest, Document_Content doc = Document_Title doc +:+ rest
           ∧ (rest = "" ↔ Incident_Description incident = ""))
  ∧ Document_Metadata doc !! "incident_id" = Some (Document_ID doc)
  ∧ Document_Source doc = "pagerduty"
  ∧ size (Document_Metadata doc)
    = (4 + (if Incident_Priority incident is Some _ then 1 else 0)
         + (if Incident_Assignments incident is _ :: _ then 1 else 0))%nat
  ∧ (4 ≤ size (Document_Metadata doc) ≤ 6)%nat.
Proof.
  cbn zeta. split_and!.
  - eexists. split; [apply mapper_Content |].
    destruct (decide (Incident_Description incident = "")) as [Hd | Hd].
    + by split.
    + split; [discriminate | intros He; contradiction].
  - apply (mapper_Metadata incident).
  - reflexivity.
  - apply mapper_Metadata_size.
  - rewrite mapper_Metadata_size.
    destruct (Incident_Priority incident), (Incident_Assignments incident); lia.
  - rewrite mapper_Metadata_size.
    destruct (Incident_Priority incident), (Incident_Assignments incident); lia.
Qed.

End MapperFacts.

(** The third sample incident and its variant differ in every field the
    mapper does not read, and have the same document. *)
Lemma incidentToDocument_keeps_the_view_sample :
  Sample.inc3 ≠ Outage.inc3'
  ∧ incidentToDocument Sample.inc3 = incidentToDocument Outage.inc3'.
Proof.
  split; [discriminate |].
  apply (proj2 (@incidentToDocument_keeps_the_view Sample.platform
                  Sample.inc3 Outage.inc3')).
  reflexivity.
Defined.

(** ** The batches handed to the store *)

Section StoredDocuments.
Context {P : Platform} {W : World}.

Lemma storeCalls_FetchIncidentsActivity (ctx : context_Context)
    (input : FetchIncidentsInput) :
  ∃ incidents,
    storeCalls (snd (FetchIncidentsActivity ctx input)) = []
    ∨ storeCalls (snd (FetchIncidentsActivity ctx input))
      = [map incidentToDocument incidents].
Proof.
  rewrite FetchIncidentsActivity_unfold.
  pose proof (ListIncidents_calls (clientFor (FetchIncidentsInput_APIKey input)) ctx
                (FetchIncidentsInput_Since input) (FetchIncidentsInput_Until input)
                (activityLimit (FetchIncidentsInput_Limit input)))
    as (_ & Hstore & _).
  cbn zeta in Hstore.
  destruct (ListIncidents _ _ _ _ _) as [[err | result] tr0]; cbn [fst snd] in *.
  - exists []. now left.
  - exists (IncidentListResponse_Incidents result). right.
    destruct (calls_after_list tr0 (IncidentListResponse_Incidents result)
                (map incidentToDocument (IncidentListResponse_Incidents result)))
      as (_ & -> & _).
    now rewrite Hstore.
Qed.

Lemma storeCalls_FetchPostmortemsActivity (ctx : context_Context)
    (input : FetchPostmortemsInput) :
  ∃ incidents,
    storeCalls (snd (FetchPostmortemsActivity ctx input)) = []
    ∨ storeCalls (snd (FetchPostmortemsActivity ctx input))
      = [map (λ incident, tagPostmortem (incidentToDocument incident))
           (resolved incidents)].
Proof.
  rewrite FetchPostmortemsActivity_unfold.
  pose proof (ListIncidents_calls (clientFor (FetchPostmortemsInput_APIKey input)) ctx
                (FetchPostmortemsInput_Since input) None
                (activityLimit (FetchPostmortemsInput_Limit input)))
    as (_ & Hstore & _).
  cbn zeta in Hstore.
  destruct (ListIncidents _ _ _ _ _) as [[err | result] tr0]; cbn [fst snd] in *.
  - exists []. now left.
  - exists (IncidentListResponse_Incidents result). right.
    destruct (calls_after_list tr0 (resolved (IncidentListResponse_Incidents result))
                (postmortemDocuments_spec (IncidentListResponse_Incidents result)))
      as (_ & -> & _).
    now rewrite Hstore.
Qed.

(** X14. Every document an activity hands to the store has the source
    [pagerduty], its own identifier under [incident_id], and the entries
    [status], [urgency] and [service]. A document of
    [FetchIncidentsActivity] has no entry [document_type]; a document of
    [FetchPostmortemsActivity] has [document_type = postmortem] and
    [status = resolved]. *)
Theorem stored_documents_invariant (ctx : context_Context)
    (incidentsInput : FetchIncidentsInput)
    (postmortemsInput : FetchPostmortemsInput) :
  let common (doc : Document) : Prop :=
    Document_Source doc = "pagerduty"
    ∧ Document_Metadata doc !! "incident_id" = Some (Document_ID doc)
    ∧ is_Some (Document_Metadata doc !! "status")
    ∧ is_Some (Document_Metadata doc !! "urgency")
    ∧ is_Some (Document_Metadata doc !! "service") in
  Forall (Forall (λ doc, common doc
                         ∧ Document_Metadata doc !! "document_type" = None))
    (storeCalls (snd (FetchIncidentsActivity ctx incidentsInput)))
  ∧ Forall (Forall (λ doc, common doc
                           ∧ Document_Metadata doc !! "document_type"
                             = Some "postmortem"
                           ∧ Document_Metadata doc !! "status" = Some "resolved"))
      (storeCalls (snd (FetchPostmortemsActivity ctx postmortemsInput))).
Proof.
  cbn zeta. split.
  - destruct (storeCalls_FetchIncidentsActivity ctx incidentsInput)
      as (incidents & [-> | ->]); constructor; [| constructor].
    apply Forall_forall. intros doc Hdoc.
    apply list_elem_of_fmap in Hdoc as (incident & -> & _).
    destruct (mapper_Metadata incident) as (Hid & Hstatus & Hurgency & Hservice & _ & _ & Htype).
    cbn zeta in *.
    split_and!; rewrite ?Hid, ?Hstatus, ?Hurgency, ?Hservice, ?Htype; done.
  - destruct (storeCalls_FetchPostmortemsActivity ctx postmortemsInput)
      as (incidents & [-> | ->]); constructor; [| constructor].
    apply Forall_forall. intros doc Hdoc.
    apply list_elem_of_fmap in Hdoc as (incident & -> & Hres).
    apply list_elem_of_filter in Hres as [Hres _].
    destruct (mapper_Metadata incident) as (Hid & Hstatus & Hurgency & Hservice & _).
    cbn zeta in *. unfold tagPostmortem.
    cbn [Document_Source Document_Metadata Document_ID].
    rewrite !lookup_insert_ne by discriminate. rewrite lookup_insert_eq.
    split_and!; rewrite ?Hid, ?Hstatus, ?Hurgency, ?Hservice, ?Hres; done.
Qed.

End StoredDocuments.

(** ** The query of [ListIncidents] *)

Lemma string_forall_app (p : ascii → bool) (a b : string) :
  string_forall p (a +:+ b) = string_forall p a && string_forall p b.
Proof.
  induction a as [|c a IH]; [reflexivity |].
  change (p c && string_forall p (a +:+ b) = p c && string_forall p a && string_forall p b).
  now rewrite IH, andb_assoc.
Qed.

(** Escaping goes byte by byte. *)
Lemma QueryEscape_cons (c : ascii) (s : string) :
  QueryEscape (String c s) = QueryEscape (String c "") +:+ QueryEscape s.
Proof.
  cbn [QueryEscape].
  destruct (shouldEscape c); [destruct (Ascii.eqb c " ") |]; reflexivity.
Qed.

Lemma QueryEscape_queryByte (s : string) :
  string_forall queryByte (QueryEscape s) = true.
Proof.
  induction s as [|c s IH]; [reflexivity |].
  rewrite QueryEscape_cons, string_forall_app, IH, andb_true_r.
  destruct c as [[] [] [] [] [] [] [] []]; vm_compute; reflexivity.
Qed.

(** Decimal digits and the minus sign are not escaped. *)
Lemma QueryEscape_digits (d : Decimal.uint) :
  QueryEscape (NilEmpty.string_of_uint d) = NilEmpty.string_of_uint d.
Proof. induction d; cbn; now rewrite ?IHd. Qed.

Lemma QueryEscape_fmt_d (n : Z) : QueryEscape (fmt_d n) = fmt_d n.
Proof.
  unfold fmt_d, NilZero.string_of_int, NilZero.string_of_uint.
  destruct (Z.to_int n) as [d | d]; destruct d; cbn;
    now rewrite ?QueryEscape_digits.
Qed.

Section Query.
Context {P : Platform}.

(** The encoded parameters: [limit] first, then [since], then [until]. *)
Lemma Values_Encode_params (since until : option Time) (limit : Z) :
  Values_Encode (ListIncidents_params since until limit)
  = "limit=" +:+ fmt_d (if decide (limit ≤ 0) then 25 else limit)
      +:+ (if since is Some t
           then "&since=" +:+ QueryEscape (Time_Format_RFC3339 t) else "")
      +:+ (if until is Some t
           then "&until=" +:+ QueryEscape (Time_Format_RFC3339 t) else "").
Proof.
  unfold ListIncidents_params, Values_Set. cbn zeta.
  set (v := fmt_d (if decide (limit ≤ 0) then 25 else limit)).
  assert (Hv : QueryEscape v = v) by apply QueryEscape_fmt_d.
  clearbody v.
  destruct since as [t1 |], until as [t2 |]; rewrite <- Hv at 2; clear Hv;
    unfold Values_Encode;
    match goal with
    | |- context [sorted_entries ?m] =>
        let l := eval vm_compute in (sorted_entries m) in
        replace (sorted_entries m) with l by (vm_compute; reflexivity)
    end;
    cbn [flat_map map fst snd app strings_Join];
    change (QueryEscape "limit") with "limit";
    change (QueryEscape "since") with "since";
    change (QueryEscape "until") with "until";
    rewrite ?string_app_assoc, ?string_app_nil_r; reflexivity.
Qed.

(** X15. The URL requested by [ListIncidents] is the incidents URL, a
    question mark and the parameters in the order [limit], [since],
    [until], whatever the order they were set in: the limit in decimal (25
    for a limit of zero or less), then each bound that is given, as its
    RFC 3339 text escaped for a query. A bound that is nil leaves no
    trace in the URL. *)
Theorem ListIncidents_endpoint_shape (since until : option Time) (limit : Z) :
  ListIncidents_endpoint since until limit
  = "https://api.pagerduty.com/incidents?limit="
      +:+ fmt_d (if decide (limit ≤ 0) then 25 else limit)
      +:+ (if since is Some t
           then "&since=" +:+ QueryEscape (Time_Format_RFC3339 t) else "")
      +:+ (if until is Some t
           then "&until=" +:+ QueryEscape (Time_Format_RFC3339 t) else "").
Proof.
  unfold ListIncidents_endpoint. now rewrite Values_Encode_params.
Qed.

(** X16. Whatever text the time formatter gives, the query of
    [ListIncidents] holds only letters, digits, [- _ . ~], the escapes [%]
    and [+] and the separators [=] and [&]: no byte of a timestamp, such
    as the colon or the plus sign of a zone offset, reaches the URL
    unescaped. *)
Theorem ListIncidents_query_is_escaped (since until : option Time) (limit : Z) :
  string_forall queryByte (Values_Encode (ListIncidents_params since until limit))
  = true.
Proof.
  rewrite Values_Encode_params, !string_forall_app.
  assert (Hlimit : string_forall queryByte
                     (fmt_d (if decide (limit ≤ 0) then 25 else limit)) = true).
  { rewrite <- QueryEscape_fmt_d. apply QueryEscape_queryByte. }
  rewrite Hlimit.
  destruct since as [t1 |], until as [t2 |];
    rewrite ?string_forall_app, ?QueryEscape_queryByte; reflexivity.
Qed.

End Query.

(** ** Registration *)

(** X17. The provider registers the three activities under three different
    names, and each node constructor creates its node under the name its
    activity is registered with, so a node of the connector always finds
    its activity; the node carries the input it was given. *)
Theorem nodes_match_registration :
  let registered := core_Provider_Activities Provider in
  NoDup (map fst registered)
  ∧ NoDup (map snd registered)
  ∧ core_Provider_Name Provider = "resolute-pagerduty"
  ∧ (∀ (P : Platform) (input : FetchIncidentsInput),
       (core_Node_Name (FetchIncidents input),
        core_Node_Activity (FetchIncidents input)) ∈ registered
       ∧ core_Node_Activity (FetchIncidents input) = ActFetchIncidents
       ∧ core_Node_Input (FetchIncidents input) = input)
  ∧ (∀ (P : Platform) (input : FetchIncidentInput),
       (core_Node_Name (FetchIncident input),
        core_Node_Activity (FetchIncident input)) ∈ registered
       ∧ core_Node_Activity (FetchIncident input) = ActFetchIncident
       ∧ core_Node_Input (FetchIncident input) = input)
  ∧ (∀ (P : Platform) (input : FetchPostmortemsInput),
       (core_Node_Name (FetchPostmortems input),
        core_Node_Activity (FetchPostmortems input)) ∈ registered
       ∧ core_Node_Activity (FetchPostmortems input) = ActFetchPostmortems
       ∧ core_Node_Input (FetchPostmortems input) = input).
Proof.
  cbn. split_and!; try reflexivity.
  - repeat (constructor;
            [intros Hin;
             repeat (apply elem_of_cons in Hin as [Hin | Hin]; [discriminate |]);
             by apply elem_of_nil in Hin |]).
    constructor.
  - repeat (constructor;
            [intros Hin;
             repeat (apply elem_of_cons in Hin as [Hin | Hin]; [discriminate |]);
             by apply elem_of_nil in Hin |]).
    constructor.
  - intros P input. split_and!; try reflexivity. set_solver.
  - intros P input. split_and!; try reflexivity. set_solver.
  - intros P input. split_and!; try reflexivity. set_solver.
Qed.
